(** * csvtojs: CSV rows to a JavaScript array assignment

    A shallow embedding of [csvtojs.py] and the properties its
    specification states about it.

    Conventions of the embedding.

    - A Python [str] is a [string]: the sequence of its characters, each
      [ascii] standing for the code point of the same number (the code points
      below 256).  [strip] and [lower] are the Python methods on that range.
    - A Python [dict] is an association list in insertion order, updated by
      [dict_set]: assigning to a key already present replaces its value in
      place, assigning to a new key appends it.
    - Exceptions are explicit: a computation that may raise returns a
      [result].
    - The [csv] library is the boundary of the embedding: a file is given by
      what the library reports about it, namely the verdict of
      [csv.Sniffer.has_header] on the sample and the rows [csv.reader]
      yields, possibly ended by an exception.  The file handle and its
      position are explicit, so that [seek(0)] means something.
    - Paths are strings, [Path] gives the form [pathlib] prints on a POSIX
      system, and the file system says which paths hold a file and which
      writes fail.
    - [json.dumps] is embedded as the encoder of the [json] library, with its
      indentation levels and separators, over the values the program gives
      it. *)

From Stdlib Require Import String Ascii List Bool Arith ZArith Lia.
From Stdlib Require Import DecimalString.
Import ListNotations.
Open Scope list_scope.
Open Scope string_scope.

(** ** Python strings *)

Module PyStr.

(** [str.isspace] of one character: U+0009..U+000D, U+001C..U+0020,
    U+0085 and U+00A0. *)
Definition is_space (c : ascii) : bool :=
  let n := nat_of_ascii c in
  (((9 <=? n) && (n <=? 13)) || ((28 <=? n) && (n <=? 32))
   || (n =? 133) || (n =? 160))%nat.

Fixpoint lstrip (s : string) : string :=
  match s with
  | EmptyString => EmptyString
  | String c s' => if is_space c then lstrip s' else s
  end.

Fixpoint rstrip (s : string) : string :=
  match s with
  | EmptyString => EmptyString
  | String c s' =>
      match rstrip s' with
      | EmptyString => if is_space c then EmptyString else String c EmptyString
      | t => String c t
      end
  end.

(** [s.strip()] *)
Definition strip (s : string) : string := rstrip (lstrip s).

(** [str.lower] of one character: A..Z, and U+00C0..U+00DE except the
    multiplication sign U+00D7, move up by 32. *)
Definition lower_char (c : ascii) : ascii :=
  let n := nat_of_ascii c in
  if (((65 <=? n) && (n <=? 90))
      || ((192 <=? n) && (n <=? 222) && negb (n =? 215)))%nat
  then ascii_of_nat (n + 32) else c.

(** [s.lower()] *)
Fixpoint lower (s : string) : string :=
  match s with
  | EmptyString => EmptyString
  | String c s' => String (lower_char c) (lower s')
  end.

(** [pat in s] for two strings: [pat] occurs in [s] as a substring. *)
Fixpoint contains (pat s : string) : bool :=
  String.prefix pat s
  || match s with
     | EmptyString => false
     | String _ s' => contains pat s'
     end.

(** Truth value of a string: [bool(s)], false exactly for the empty one. *)
Definition truthy (s : string) : bool :=
  match s with EmptyString => false | String _ _ => true end.

(** [a or b] on strings. *)
Definition str_or (a b : string) : string := if truthy a then a else b.

End PyStr.
Import PyStr.

(** ** Python dictionaries, in insertion order *)

Module PyDict.

Section Dict.
Context {V : Type}.

Definition dict := list (string * V).

(** [d[k] = v] *)
Fixpoint dict_set (k : string) (v : V) (d : dict) : dict :=
  match d with
  | [] => [(k, v)]
  | (k', v') :: d' =>
      if String.eqb k' k then (k', v) :: d' else (k', v') :: dict_set k v d'
  end.

(** [d.get(k)]: [None] when [k not in d]. *)
Fixpoint dict_get (k : string) (d : dict) : option V :=
  match d with
  | [] => None
  | (k', v') :: d' => if String.eqb k' k then Some v' else dict_get k d'
  end.

(** The dictionary built by assigning the pairs of [l] from left to right
    onto [d]: what [dict(pairs)] and a dict comprehension do. *)
Definition dict_update (d : dict) (l : list (string * V)) : dict :=
  fold_left (fun acc kv => dict_set (fst kv) (snd kv) acc) l d.

Definition dict_of_list (l : list (string * V)) : dict := dict_update [] l.

End Dict.
Arguments dict V : clear implicits.

End PyDict.
Import PyDict.

(** ** Exceptions *)

(** What the libraries raise on a file that exists: [open] (a directory, a
    file without read permission), the UTF-8 decoder, and [csv].  Each
    carries the library's message.  The file system does not change during a
    run, so [open] does not miss a file that [exists()] has just seen. *)
Inductive library_error : Type :=
| OSError (msg : string)
| UnicodeDecodeError (msg : string)
| CsvError (msg : string).

(** The exceptions of a run: [FileNotFoundError] is raised by the program
    itself, [AttributeError] by a method call on [None], the others by the
    libraries. *)
Inductive exn : Type :=
| FileNotFoundError (path : string)
| AttributeError
| Library (e : library_error).

Inductive result (A : Type) : Type :=
| Ok (a : A)
| Raise (e : exn).
Arguments Ok {A} a.
Arguments Raise {A} e.

Definition bind {A B} (m : result A) (k : A -> result B) : result B :=
  match m with
  | Ok a => k a
  | Raise e => Raise e
  end.

Notation "x <- m ;; k" := (bind m (fun x => k))
  (at level 61, m at next level, right associativity).
Notation "' pat <- m ;; k" := (bind m (fun pat => k))
  (at level 61, pat pattern, m at next level, right associativity).

(** [raise e] when [o] holds an exception, go on otherwise. *)
Definition check (o : option library_error) : result unit :=
  match o with
  | Some e => Raise (Library e)
  | None => Ok tt
  end.

(** ** Records *)

(** The dictionary [{'key': .., 'common': .., 'scientific': ..}] both
    builders return. *)
Record record : Type := mkRecord {
  key : string;
  common : string;
  scientific : string
}.

(** ** What the csv library reports *)

Definition row := list string.

(** The lines a [csv.reader] yields from some position of the file: the
    rows, then [StopIteration] or an exception. *)
Record stream : Type := mkStream {
  yielded : list row;
  raised : option library_error
}.

Definition exhausted : stream := {| yielded := []; raised := None |}.

(** [csv.Sniffer().has_header(sample)]: an answer, or an exception. *)
Inductive sniffed : Type :=
| Verdict (b : bool)
| SniffError.

(** A file that exists, as the program can observe it. *)
Record csvfile : Type := mkFile {
  open_error : option library_error;    (* [path.open] raises *)
  sample_error : option library_error;  (* [fh.read(8192)] raises *)
  sample_sniffed : sniffed;             (* the sniffer on the sample *)
  from_start : stream;                  (* a reader started at offset 0 *)
  past_sample : stream     (* a reader started where [read(8192)] stops *)
}.

(** The file system.  Applied to a path it is the file there, [None] where
    [path.exists()] is false.  [write_failure] says what becomes of writing
    a file at a path: [None] when the write succeeds, and otherwise the
    lines of the traceback the interpreter prints for the exception of
    [write_text] (a missing directory, a directory in the way, no
    permission), in which case no file is left. *)
Record filesystem : Type := mkFilesystem {
  file_at :> string -> option csvfile;
  write_failure : string -> option (list string)
}.

(** An open file and what a reader started now would yield. *)
Record filehandle : Type := mkHandle {
  file : csvfile;
  unread : stream
}.

Definition fh_open (f : csvfile) : filehandle :=
  {| file := f; unread := from_start f |}.

(** [fh.read(8192)]: the position moves past the sample. *)
Definition fh_read (fh : filehandle) : filehandle :=
  {| file := file fh; unread := past_sample (file fh) |}.

(** [fh.seek(0)] *)
Definition fh_seek (fh : filehandle) : filehandle :=
  {| file := file fh; unread := from_start (file fh) |}.

(** Iterating a reader to its end leaves the handle at the end of the
    file. *)
Definition fh_drain (fh : filehandle) : stream * filehandle :=
  (unread fh, {| file := file fh; unread := exhausted |}).

(** ** csv.DictReader *)

(** One value of a row of [csv.DictReader]: a cell, or [None] ([restval])
    for a field the line is too short for. *)
Definition cell := option string.

(** A row of [csv.DictReader]: the fields under their names, and, under the
    key [None] ([restkey]), the cells beyond the last field name when the
    line is longer than the header.  [items()] lists [fields], then the
    [None] entry. *)
Record dictrow : Type := mkDictRow {
  fields : dict cell;
  restkey : option (list string)
}.

Definition is_nil {A} (l : list A) : bool :=
  match l with [] => true | _ :: _ => false end.

(** [DictReader.__next__] on one non-empty line. *)
Definition DictReader_row (fieldnames : list string) (r : row) : dictrow :=
  let d := dict_of_list (combine fieldnames (map Some r)) in
  let lf := length fieldnames in
  let lr := length r in
  if (lf <? lr)%nat then
    {| fields := d; restkey := Some (skipn lf r) |}
  else
    {| fields := dict_update d (map (fun k => (k, None)) (skipn lr fieldnames));
       restkey := None |}.

(** [reader.fieldnames] on a fresh [DictReader]: the first line, [None] at
    the end of the input; an exception of the reader passes through.  The
    second component is what is left to read. *)
Definition DictReader_fieldnames (s : stream)
  : result (option (list string) * stream) :=
  match yielded s with
  | [] => _ <- check (raised s) ;; Ok (None, exhausted)
  | h :: rest => Ok (Some h, {| yielded := rest; raised := raised s |})
  end.

(** The rows of a [DictReader]: lines equal to [[]] are skipped. *)
Definition DictReader_rows (fieldnames : option (list string)) (lines : list row)
  : list dictrow :=
  match fieldnames with
  | None => []
  | Some names =>
      map (DictReader_row names) (filter (fun r => negb (is_nil r)) lines)
  end.

(** ** The program *)

Fixpoint list_index (x : string) (l : list string) : option nat :=
  match l with
  | [] => None
  | y :: l' => if String.eqb y x then Some 0
               else option_map S (list_index x l')
  end.

(** The inner function [idx_of] of [infer_fields]: the position in [low] of
    the first of [names] that occurs in it, [-1] without one.  Nothing calls
    it. *)
Fixpoint idx_of (low names : list string) : Z :=
  match names with
  | [] => (-1)%Z
  | n :: names' =>
      match list_index n low with
      | Some i => Z.of_nat i
      | None => idx_of low names'
      end
  end.

(** [infer_fields]: [low.index] raises [ValueError] where [list_index]
    gives [None]; both exits of the handler return the same pair.  The
    three positions are computed and not used. *)
Definition infer_fields (fieldnames : option (list string))
  : string * option (dict string) :=
  let low := map (fun f => lower (strip f))
                 (match fieldnames with Some l => l | None => [] end) in
  match list_index "key" low with
  | None => ("fallback", None)
  | Some key_i =>
      match list_index "common name" low with
      | None => ("fallback", None)
      | Some common_i =>
          let sci_i :=
            match list_index "scientific name" low with
            | Some i => Z.of_nat i
            | None =>
                match list_index "scientific" low with
                | Some i => Z.of_nat i
                | None => (-1)%Z
                end
            end in
          ("header", Some [("key", "key"); ("common", "common name");
                           ("scientific", "scientific name")])
      end
  end.

(** [(v or '').strip()] *)
Definition cell_text (v : cell) : string :=
  strip (match v with Some s => s | None => "" end).

(** The inner function [g] of [build_records_from_dictrow], closed over
    [lookup].  The loop [for k in lookup] reads [lookup[k]], the entry it
    stands on. *)
Definition g (lookup : dict (string * cell)) (name : string) : string :=
  match dict_get name lookup with
  | Some kv => cell_text (snd kv)
  | None =>
      match find (fun e => contains name (fst e)) lookup with
      | Some e => cell_text (snd (snd e))
      | None => ""
      end
  end.

Definition build_records_from_dictrow (row : dictrow)
    (headers_mode : string * option (dict string)) : result record :=
  match restkey row with
  | Some _ => Raise AttributeError      (* [k.strip()] with [k = None] *)
  | None =>
      let keys := dict_of_list
                    (map (fun kv => (strip (fst kv), snd kv)) (fields row)) in
      let lookup := dict_of_list
                      (map (fun kv => (lower (strip (fst kv)), kv))
                           (fields row)) in
      Ok {| key := g lookup "key";
            common := str_or (g lookup "common name") (g lookup "common");
            scientific := str_or (g lookup "scientific name")
                                 (g lookup "scientific") |}
  end.

Definition build_records_from_rowlist (cols : list string) : record :=
  let key := nth 0 cols "" in
  let common := nth 1 cols "" in
  let scientific := nth 2 cols "" in
  {| key := strip (str_or key "");
     common := strip (str_or common "");
     scientific := strip (str_or scientific "") |}.

(** [not rec['key'] and not rec['common']] *)
Definition no_key_no_common (rec : record) : bool :=
  negb (truthy (key rec)) && negb (truthy (common rec)).

(** The loop over the rows of the [DictReader]; [records] is the list the
    loop appends to, [tail] what the reader does after its last row. *)
Fixpoint dict_loop (headers_mode : string * option (dict string))
    (rows : list dictrow) (tail : option library_error)
    (records : list record)
  : result (list record) :=
  match rows with
  | [] => _ <- check tail ;; Ok records
  | row :: rows' =>
      rec <- build_records_from_dictrow row headers_mode ;;
      if no_key_no_common rec
      then dict_loop headers_mode rows' tail records
      else dict_loop headers_mode rows' tail (records ++ [rec])
  end.

(** The loop over the rows of the plain reader. *)
Fixpoint row_loop (rows : list row) (tail : option library_error)
    (records : list record) : result (list record) :=
  match rows with
  | [] => _ <- check tail ;; Ok records
  | cols :: rows' =>
      let cols := map strip cols in
      if negb (existsb truthy cols)
      then row_loop rows' tail records
      else
        let rec := build_records_from_rowlist cols in
        if no_key_no_common rec
        then row_loop rows' tail records
        else row_loop rows' tail (records ++ [rec])
  end.

(** Lines 106 to 117: [fh.seek(0)], then the plain reader. *)
Definition plain_rows (fh : filehandle) (records : list record)
  : result (list record) :=
  let fh := fh_seek fh in
  let '(s, fh) := fh_drain fh in
  row_loop (yielded s) (raised s) records.

Definition convert_csv_to_records (fs : filesystem) (path : string)
  : result (list record) :=
  match fs path with
  | None => Raise (FileNotFoundError path)
  | Some f =>
      _ <- check (open_error f) ;;
      let fh := fh_open f in
      _ <- check (sample_error f) ;;
      let fh := fh_read fh in
      let fh := fh_seek fh in
      let has_header :=
        match sample_sniffed f with
        | Verdict b => b
        | SniffError => true
        end in
      let records := [] in
      if has_header then
        let '(s, fh) := fh_drain fh in
        '(fieldnames, s) <- DictReader_fieldnames s ;;
        let header_mode := infer_fields fieldnames in
        records <- dict_loop header_mode
                     (DictReader_rows fieldnames (yielded s)) (raised s)
                     records ;;
        if negb (is_nil records) then Ok records
        else
          let fh := fh_seek fh in
          plain_rows fh records
      else plain_rows fh records
  end.

(** ** json.dumps *)

Module Json.

(** The values the program serialises: strings, lists and dictionaries with
    string keys. *)
Unset Elimination Schemes.
Inductive json : Type :=
| JStr (s : string)
| JList (l : list json)
| JDict (d : list (string * json)).
Set Elimination Schemes.

Definition quote : string := String "034" "".
Definition newline : string := String "010" "".

Definition hex_digit (n : nat) : ascii :=
  match n with
  | 0 => "0" | 1 => "1" | 2 => "2" | 3 => "3" | 4 => "4" | 5 => "5"
  | 6 => "6" | 7 => "7" | 8 => "8" | 9 => "9" | 10 => "a" | 11 => "b"
  | 12 => "c" | 13 => "d" | 14 => "e" | _ => "f"
  end%char.

(** The replacement of one character in [py_encode_basestring]
    ([ensure_ascii=False]): the quote, the backslash and the characters
    below U+0020 are escaped, everything else stands for itself. *)
Definition escape_char (c : ascii) : string :=
  let n := nat_of_ascii c in
  if (n =? 34)%nat then "\" ++ quote
  else if (n =? 92)%nat then "\\"
  else if (n =? 10)%nat then "\n"
  else if (n =? 13)%nat then "\r"
  else if (n =? 9)%nat then "\t"
  else if (n =? 8)%nat then "\b"
  else if (n =? 12)%nat then "\f"
  else if (n <? 32)%nat
       then "\u00" ++ String (hex_digit (n / 16)) (String (hex_digit (n mod 16)) "")
  else String c "".

Fixpoint escape (s : string) : string :=
  match s with
  | EmptyString => EmptyString
  | String c s' => escape_char c ++ escape s'
  end.

Definition encode_basestring (s : string) : string :=
  quote ++ escape s ++ quote.

Fixpoint repeat_string (s : string) (n : nat) : string :=
  match n with
  | 0 => ""
  | S n' => s ++ repeat_string s n'
  end.

Section Encoder.
(** [_indent], [_item_separator] and [_key_separator] of the encoder. *)
Variable indent : option string.
Variable item_separator key_separator : string.

(** ['\n' + _indent * level], nothing without indentation. *)
Definition newline_indent (level : nat) : string :=
  match indent with
  | Some i => newline ++ repeat_string i level
  | None => ""
  end.

(** [_iterencode], with [_iterencode_list] and [_iterencode_dict] as the
    two inner loops; the chunks are concatenated as [dumps] does. *)
Fixpoint iterencode (o : json) (level : nat) : string :=
  match o with
  | JStr s => encode_basestring s
  | JList [] => "[]"
  | JList (x :: xs) =>
      "[" ++ newline_indent (S level) ++ iterencode x (S level)
      ++ (fix items (l : list json) : string :=
            match l with
            | [] => ""
            | y :: l' =>
                item_separator ++ newline_indent (S level)
                ++ iterencode y (S level) ++ items l'
            end) xs
      ++ newline_indent level ++ "]"
  | JDict [] => "{}"
  | JDict ((k, v) :: kvs) =>
      "{" ++ newline_indent (S level)
      ++ encode_basestring k ++ key_separator ++ iterencode v (S level)
      ++ (fix items (l : list (string * json)) : string :=
            match l with
            | [] => ""
            | (k', v') :: l' =>
                item_separator ++ newline_indent (S level)
                ++ encode_basestring k' ++ key_separator
                ++ iterencode v' (S level) ++ items l'
            end) kvs
      ++ newline_indent level ++ "}"
  end.
End Encoder.

(** [json.dumps(o, ensure_ascii=False, indent=indent, separators=separators)]:
    with separators given they are used; without, the item separator is
    [','] when there is an indentation and [', '] when there is none, and
    the key separator is [': ']. *)
Definition dumps (o : json) (indent : option nat)
    (separators : option (string * string)) : string :=
  let seps :=
    match separators, indent with
    | Some p, _ => p
    | None, Some _ => (",", ": ")
    | None, None => (", ", ": ")
    end in
  iterencode (option_map (repeat_string " ") indent) (fst seps) (snd seps) o 0.

End Json.
Import Json.

(** The record as [json.dumps] sees it: a dictionary with its three keys in
    the order of the literal that built it. *)
Definition record_items (r : record) : list (string * string) :=
  [("key", key r); ("common", common r); ("scientific", scientific r)].

Definition json_of_record (r : record) : json :=
  JDict (map (fun kv => (fst kv, JStr (snd kv))) (record_items r)).

Definition json_of_records (records : list record) : json :=
  JList (map json_of_record records).

(** ** write_js and main *)

(** [str(Path(s))] on a POSIX system: the parts of [s] between slashes,
    without the empty ones and the dots, joined by single slashes after the
    root; the root is [/] for a path that begins with slashes, [//] when it
    begins with exactly two; a path without root and parts is [.].  Nothing
    is resolved: [..] stays. *)
Fixpoint split_slash (s : string) : list string :=
  match s with
  | EmptyString => [EmptyString]
  | String c s' =>
      if Ascii.eqb c "/" then EmptyString :: split_slash s'
      else match split_slash s' with
           | [] => [String c EmptyString]
           | part :: parts => String c part :: parts
           end
  end.

Fixpoint leading_slashes (s : string) : nat :=
  match s with
  | EmptyString => 0
  | String c s' => if Ascii.eqb c "/" then S (leading_slashes s') else 0
  end.

Definition path_root (s : string) : string :=
  match leading_slashes s with
  | 0 => ""
  | 2 => "//"
  | _ => "/"
  end.

Definition path_parts (s : string) : list string :=
  filter (fun part => negb (String.eqb part "") && negb (String.eqb part "."))
         (split_slash s).

Fixpoint join_slash (parts : list string) : string :=
  match parts with
  | [] => ""
  | part :: parts' =>
      match parts' with
      | [] => part
      | _ :: _ => part ++ "/" ++ join_slash parts'
      end
  end.

Definition Path (s : string) : string :=
  let written := path_root s ++ join_slash (path_parts s) in
  if String.eqb written "" then "." else written.

(** [write_js]: the path it returns, [Path(out_path)], and the text it
    hands to [write_text] for that path.  Whether the write succeeds is the
    file system's; an exception of [write_text] leaves [write_js] as it is
    raised, and [main], which calls [write_js] outside its [try], meets it
    there. *)
Definition write_js (records : list record) (out_path : string)
    (var_name : string) (compact : bool) : string * string :=
  let out_path := Path out_path in
  let text :=
    if compact then
      let json_text := dumps (json_of_records records) None (Some (",", ":")) in
      var_name ++ "=" ++ json_text ++ ";" ++ newline
    else
      let json_text := dumps (json_of_records records) (Some 2) None in
      var_name ++ " = " ++ json_text ++ ";" ++ newline in
  (out_path, text).

(** The command line after [parse_args]. *)
Record args : Type := mkArgs {
  csvfile_arg : string;
  out : string;
  var_name : string;
  compact : bool
}.

Definition default_out : string := "species-data.js".
Definition default_var_name : string := "window.__speciesRecords".

(** What a run leaves behind: the exit status (0, 2 from [sys.exit(2)], 1
    for an exception nothing catches), what went to the two streams, and
    the file written, if any. *)
Record outcome : Type := mkOutcome {
  exit_code : Z;
  stderr : list string;
  stdout : list string;
  written : option (string * string)
}.

(** [str(e)] where the program fixes it; the libraries' messages are carried
    by the exception. *)
Definition exn_message (e : exn) : string :=
  match e with
  | FileNotFoundError p => p
  | AttributeError => "'NoneType' object has no attribute 'strip'"
  | Library (OSError m) => m
  | Library (UnicodeDecodeError m) => m
  | Library (CsvError m) => m
  end.

Definition str_of_nat (n : nat) : string :=
  NilEmpty.string_of_uint (Nat.to_uint n).

Definition main (fs : filesystem) (a : args) : outcome :=
  match convert_csv_to_records fs (csvfile_arg a) with
  | Raise (FileNotFoundError _) =>
      {| exit_code := 2;
         stderr := ["Error: file not found: " ++ csvfile_arg a];
         stdout := []; written := None |}
  | Raise e =>
      {| exit_code := 2;
         stderr := ["Error reading CSV: " ++ exn_message e];
         stdout := []; written := None |}
  | Ok records =>
      let warning :=
        if is_nil records
        then ["Warning: no records parsed from CSV. Output will still be created as an empty array."]
        else [] in
      let '(out_path, text) :=
        write_js records (out a) (var_name a) (compact a) in
      match write_failure fs out_path with
      | Some traceback =>
          (* the exception of [write_text] is not caught *)
          {| exit_code := 1;
             stderr := warning ++ traceback;
             stdout := []; written := None |}
      | None =>
          {| exit_code := 0;
             stderr := warning;
             stdout := ["Wrote " ++ out_path ++ " with "
                        ++ str_of_nat (length records) ++ " records."];
             written := Some (out_path, text) |}
      end
  end.

(** ** Reading JSON back

    The program only writes JSON; the reader of its output is the browser.
    The round-trip property needs a reader to be stated against, so here is
    one, written from the JSON grammar: a tokenizer for the whole token
    language of the output (structural characters, strings with all their
    escapes, insignificant white space) and a parser for arrays of objects
    with string members, the shape the program writes. *)

Module JsonRead.

Inductive token : Type :=
| LBracket | RBracket | LBrace | RBrace | Comma | Colon
| Str (s : string).

(** Insignificant white space: space, tab, line feed, carriage return. *)
Definition is_ws (c : ascii) : bool :=
  let n := nat_of_ascii c in
  ((n =? 32) || (n =? 9) || (n =? 10) || (n =? 13))%nat.

Definition hex_value (c : ascii) : option nat :=
  let n := nat_of_ascii c in
  if ((48 <=? n) && (n <=? 57))%nat then Some (n - 48)
  else if ((97 <=? n) && (n <=? 102))%nat then Some (n - 87)
  else if ((65 <=? n) && (n <=? 70))%nat then Some (n - 55)
  else None.

(** Where the tokenizer stands: between tokens; inside a string, with the
    characters read so far; after a backslash; inside a [\u] escape, with
    the number of digits still to come and the value so far. *)
Inductive lexstate : Type :=
| Between
| InString (acc : string)
| Escaped (acc : string)
| Unicode (acc : string) (digits : nat) (value : nat).

Definition snoc (acc : string) (c : ascii) : string := acc ++ String c "".

Definition push (t : token) (o : option (list token)) : option (list token) :=
  option_map (cons t) o.

(** The tokens of a text; [None] when it is not a sequence of JSON tokens
    or holds a character beyond U+00FF. *)
Fixpoint lex (st : lexstate) (s : string) : option (list token) :=
  match s with
  | EmptyString =>
      match st with
      | Between => Some []
      | _ => None
      end
  | String c s' =>
      match st with
      | Between =>
          if is_ws c then lex Between s'
          else if Ascii.eqb c "[" then push LBracket (lex Between s')
          else if Ascii.eqb c "]" then push RBracket (lex Between s')
          else if Ascii.eqb c "{" then push LBrace (lex Between s')
          else if Ascii.eqb c "}" then push RBrace (lex Between s')
          else if Ascii.eqb c "," then push Comma (lex Between s')
          else if Ascii.eqb c ":" then push Colon (lex Between s')
          else if Ascii.eqb c "034" then lex (InString "") s'
          else None
      | InString acc =>
          if Ascii.eqb c "034" then push (Str acc) (lex Between s')
          else if Ascii.eqb c "\" then lex (Escaped acc) s'
          else if (nat_of_ascii c <? 32)%nat then None
          else lex (InString (snoc acc c)) s'
      | Escaped acc =>
          if Ascii.eqb c "034" then lex (InString (snoc acc "034")) s'
          else if Ascii.eqb c "\" then lex (InString (snoc acc "\")) s'
          else if Ascii.eqb c "/" then lex (InString (snoc acc "/")) s'
          else if Ascii.eqb c "b" then lex (InString (snoc acc "008")) s'
          else if Ascii.eqb c "f" then lex (InString (snoc acc "012")) s'
          else if Ascii.eqb c "n" then lex (InString (snoc acc "010")) s'
          else if Ascii.eqb c "r" then lex (InString (snoc acc "013")) s'
          else if Ascii.eqb c "t" then lex (InString (snoc acc "009")) s'
          else if Ascii.eqb c "u" then lex (Unicode acc 4 0) s'
          else None
      | Unicode acc digits value =>
          match hex_value c, digits with
          | Some d, S 0 =>
              let v := 16 * value + d in
              if (v <? 256)%nat then lex (InString (snoc acc (ascii_of_nat v))) s'
              else None
          | Some d, S digits' => lex (Unicode acc digits' (16 * value + d)) s'
          | _, _ => None
          end
      end
  end.

(** An object with string members, in the order they are written. *)
Definition object := list (string * string).

(** The members of an object after its first brace, up to and including the
    closing one; the rest of the tokens is returned with them. *)
Fixpoint parse_members (ts : list token) : option (object * list token) :=
  match ts with
  | Str k :: Colon :: Str v :: RBrace :: ts' => Some ([(k, v)], ts')
  | Str k :: Colon :: Str v :: Comma :: ts' =>
      match parse_members ts' with
      | Some (m, rest) => Some ((k, v) :: m, rest)
      | None => None
      end
  | _ => None
  end.

Definition parse_object (ts : list token) : option (object * list token) :=
  match ts with
  | LBrace :: RBrace :: ts' => Some ([], ts')
  | LBrace :: ts' => parse_members ts'
  | _ => None
  end.

(** The elements of an array after its bracket or after a comma, up to the
    closing bracket, which must end the input. *)
Fixpoint parse_elements (fuel : nat) (ts : list token) : option (list object) :=
  match fuel with
  | 0 => None
  | S fuel' =>
      match parse_object ts with
      | Some (o, [RBracket]) => Some [o]
      | Some (o, Comma :: ts') => option_map (cons o) (parse_elements fuel' ts')
      | _ => None
      end
  end.

Definition parse_array (ts : list token) : option (list object) :=
  match ts with
  | [LBracket; RBracket] => Some []
  | LBracket :: ts' => parse_elements (length ts') ts'
  | _ => None
  end.

(** The value of a JSON text that is an array of objects with string
    members. *)
Definition loads (text : string) : option (list object) :=
  match lex Between text with
  | Some ts => parse_array ts
  | None => None
  end.

(** The member [k] of an object. *)
Fixpoint member (k : string) (o : object) : option string :=
  match o with
  | [] => None
  | (k', v) :: o' => if String.eqb k' k then Some v else member k o'
  end.

(** A token as it is written with nothing around it. *)
Definition render (t : token) : string :=
  match t with
  | LBracket => "[" | RBracket => "]" | LBrace => "{" | RBrace => "}"
  | Comma => "," | Colon => ":"
  | Str s => encode_basestring s
  end.

Fixpoint render_all (ts : list token) : string :=
  match ts with
  | [] => ""
  | t :: ts' => render t ++ render_all ts'
  end.

End JsonRead.
Import JsonRead.

(** ** The specification's words

    The definitions below are not taken from the program: they say, on the
    rows of the file, what the specification expects, and the theorems
    compare them with the program. *)

(** A header name as it is compared: trimmed and lower-cased. *)
Definition normalized (h : string) : string := lower (strip h).

(** A record has a key or a common name. *)
Definition has_key_or_common (rec : record) : bool :=
  truthy (key rec) || truthy (common rec).

(** The trimmed first three cells of a row, the empty string for a cell the
    row does not have. *)
Definition first_three (r : row) : record :=
  {| key := strip (nth 0 r "");
     common := strip (nth 1 r "");
     scientific := strip (nth 2 r "") |}.

(** Positional parsing of all rows: first three cells, rows without key and
    common name left out. *)
Definition positional_records (rows : list row) : list record :=
  filter has_key_or_common (map first_three rows).

(** The trimmed cell of row [r] in the column whose header is [name]. *)
Definition column (header : list string) (name : string) (r : row) : string :=
  match list_index name (map normalized header) with
  | Some i => strip (nth i r "")
  | None => ""
  end.

Definition named_record (header : list string) (r : row) : record :=
  {| key := column header "key" r;
     common := column header "common name" r;
     scientific := column header "scientific name" r |}.

(** Header-keyed parsing of the data rows under a header with the three
    names. *)
Definition header_records (header : list string) (data : list row)
  : list record :=
  filter has_key_or_common (map (named_record header) data).

(** The header row is exactly the three columns, in some order and in any
    letter case. *)
Definition three_columns (header : list string) : Prop :=
  length header = 3
  /\ In "key" (map normalized header)
  /\ In "common name" (map normalized header)
  /\ In "scientific name" (map normalized header).

(** The value of the last pair of [l] whose key is [k]. *)
Fixpoint last_value {V} (k : string) (l : list (string * V)) : option V :=
  match l with
  | [] => None
  | (k', v) :: l' =>
      match last_value k l' with
      | Some v' => Some v'
      | None => if String.eqb k' k then Some v else None
      end
  end.

(** The columns of a row mapping: header and cell, in column order. *)
Definition columns := list (string * cell).

(** The cell under the header [name]; when several headers are [name] after
    trimming and lower-casing, the last of them. *)
Definition cell_named (name : string) (cols : columns) : option cell :=
  last_value name (map (fun kv => (normalized (fst kv), snd kv)) cols).

(** The first header, in column order, that contains [name]. *)
Definition first_header_containing (name : string) (cols : columns)
  : option string :=
  find (contains name) (map (fun kv => normalized (fst kv)) cols).

(** The header that is [name], else the first header that contains
    [name], else nothing; headers count trimmed and lower-cased, and the
    value is the cell of the last column with the header found. *)
Definition field_value (name : string) (cols : columns) : string :=
  match cell_named name cols with
  | Some v => cell_text v
  | None =>
      match first_header_containing name cols with
      | Some k =>
          match cell_named k cols with
          | Some v => cell_text v
          | None => ""
          end
      | None => ""
      end
  end.

(** The common name as the specification words it: the header
    [common name] when there is one, and only without it a header that
    contains [common]. *)
Definition claimed_common (cols : columns) : string :=
  match cell_named "common name" cols with
  | Some v => cell_text v
  | None =>
      match first_header_containing "common" cols with
      | Some k =>
          match cell_named k cols with
          | Some v => cell_text v
          | None => ""
          end
      | None => ""
      end
  end.

(** The table [lookup] of [build_records_from_dictrow], as a function of
    the fields of the row. *)
Definition lookup_of (cols : columns) : dict (string * cell) :=
  dict_of_list (map (fun kv => (lower (strip (fst kv)), kv)) cols).

(** The first of two strings that is not empty. *)
Definition first_non_empty (a b : string) : string :=
  if String.eqb a "" then b else a.

(** The sniffer's answer as the program uses it: a failure counts as a
    header. *)
Definition header_assumed (f : csvfile) : bool :=
  match sample_sniffed f with
  | Verdict b => b
  | SniffError => true
  end.

(** The file opens and its sample decodes. *)
Definition opens (f : csvfile) : Prop :=
  open_error f = None /\ sample_error f = None.

(** Header-keyed parsing of a file on its own: a [DictReader] from the start
    of the file and the loop of the program, onto an empty list. *)
Definition header_pass (f : csvfile) : result (list record) :=
  '(fieldnames, s) <- DictReader_fieldnames (from_start f) ;;
  dict_loop (infer_fields fieldnames)
            (DictReader_rows fieldnames (yielded s)) (raised s) [].

(** Positional parsing of a file on its own: a plain reader from the start
    of the file and the loop of the program, onto an empty list. *)
Definition positional_pass (f : csvfile) : result (list record) :=
  row_loop (yielded (from_start f)) (raised (from_start f)) [].

(** The tokens of the JSON text of a record sequence. *)
Definition tokens_of_record (r : record) : list token :=
  [LBrace; Str "key"; Colon; Str (key r); Comma;
   Str "common"; Colon; Str (common r); Comma;
   Str "scientific"; Colon; Str (scientific r); RBrace].

Fixpoint tokens_of_more (rs : list record) : list token :=
  match rs with
  | [] => []
  | r :: rs' => (Comma :: tokens_of_record r) ++ tokens_of_more rs'
  end.

Definition tokens_of_records (records : list record) : list token :=
  match records with
  | [] => [LBracket; RBracket]
  | r :: rs =>
      (LBracket :: tokens_of_record r) ++ tokens_of_more rs ++ [RBracket]
  end.

(** An object read as a record: its three members, whatever their order. *)
Definition record_of_object (o : object) : option record :=
  match member "key" o, member "common" o, member "scientific" o with
  | Some k, Some c, Some s =>
      Some {| key := k; common := c; scientific := s |}
  | _, _, _ => None
  end.

Fixpoint records_of_objects (os : list object) : option (list record) :=
  match os with
  | [] => Some []
  | o :: os' =>
      match record_of_object o, records_of_objects os' with
      | Some r, Some rs => Some (r :: rs)
      | _, _ => None
      end
  end.

(** The record sequence a JSON text denotes. *)
Definition loads_records (text : string) : option (list record) :=
  match loads text with
  | Some os => records_of_objects os
  | None => None
  end.

(** The pretty layout: one member per line, the objects two spaces in and
    their members four. *)
Definition pretty_member (k v : string) : string :=
  "    " ++ encode_basestring k ++ ": " ++ encode_basestring v.

Definition pretty_record (r : record) : string :=
  "{" ++ newline
  ++ pretty_member "key" (key r) ++ "," ++ newline
  ++ pretty_member "common" (common r) ++ "," ++ newline
  ++ pretty_member "scientific" (scientific r) ++ newline
  ++ "  }".

Fixpoint pretty_more (rs : list record) : string :=
  match rs with
  | [] => ""
  | r :: rs' => "," ++ newline ++ "  " ++ pretty_record r ++ pretty_more rs'
  end.

Definition pretty_records (records : list record) : string :=
  match records with
  | [] => "[]"
  | r :: rs =>
      "[" ++ newline ++ "  " ++ pretty_record r ++ pretty_more rs
      ++ newline ++ "]"
  end.

(** ** Sample inputs

    Each file is given by its lines as the reader yields them and by the
    answer of the sniffer.  Where an answer is fixed, it is the one
    [csv.Sniffer] gives on the text: it votes over the columns whose cells,
    below the first line, all have one length or are all numbers, and it
    raises when no character occurs equally often in the lines. *)

Module Samples.

(** A file system with one file, in which every write succeeds. *)
Definition one_file (name : string) (f : csvfile) : filesystem :=
  {| file_at := fun p => if String.eqb p name then Some f else None;
     write_failure := fun _ => None |}.

(** A readable file with the given rows, as the reader yields them from the
    start, and the given answer of the sniffer. *)
Definition plain_file (answer : sniffed) (rows : list row) : csvfile :=
  {| open_error := None;
     sample_error := None;
     sample_sniffed := answer;
     from_start := {| yielded := rows; raised := None |};
     past_sample := exhausted |}.

Definition species_header : row := ["Key"; "Common Name"; "Scientific Name"].

(** The example of the specification: a header, two species and a line of
    empty cells between them.  No column has cells of one length, and the
    sniffer sees no header. *)
Definition species_rows : list row :=
  [species_header;
   ["Oak"; "Oak Tree"; "Quercus"];
   [""; ""; ""];
   ["Maple"; "Maple Tree"; "Acer"]].

Definition oak : record :=
  {| key := "Oak"; common := "Oak Tree"; scientific := "Quercus" |}.
Definition maple : record :=
  {| key := "Maple"; common := "Maple Tree"; scientific := "Acer" |}.
Definition olive : record :=
  {| key := "Olive"; common := "Olive Tree"; scientific := "Olea" |}.
Definition elm : record :=
  {| key := "Elm"; common := "Elm Tree"; scientific := "Ulmus" |}.
Definition header_as_record : record :=
  {| key := "Key"; common := "Common Name"; scientific := "Scientific Name" |}.

(** A header, two species and between them a line with a scientific name
    only.  The scientific names all have four letters, the header of their
    column has not, and the sniffer sees a header. *)
Definition orchard_rows : list row :=
  [species_header;
   ["Maple"; "Maple Tree"; "Acer"];
   [""; ""; "Ilex"];
   ["Olive"; "Olive Tree"; "Olea"]].
Definition orchard_file : csvfile := plain_file (Verdict true) orchard_rows.

(** A file with the header line [Key,Common Name,Scientific Name] and
    nothing else.  The sniffer takes a single line for a header. *)
Definition header_only (answer : sniffed) : csvfile :=
  plain_file answer [species_header].

(** Two lines of commas, [,] and [,,]: every cell is empty, and the second
    line has one cell more than the first.  The sniffer finds no delimiter
    in such a sample and raises. *)
Definition comma_rows : list row := [[""; ""]; [""; ""; ""]].
Definition comma_file : csvfile := plain_file SniffError comma_rows.

(** The header, and a first species with a fourth cell.  The lines do not
    agree on the number of commas, and the sniffer raises. *)
Definition surplus_rows : list row :=
  [species_header;
   ["Oak"; "Oak Tree"; "Quercus"; "extra"];
   ["Maple"; "Maple Tree"; "Acer"]].
Definition surplus_file : csvfile := plain_file SniffError surplus_rows.

(** Three unlabeled columns in one line. *)
Definition abc_rows : list row := [["a"; "b"; "c"]].

(** Three species without a header line.  No column has cells of one
    length below the first line, and the sniffer sees no header. *)
Definition forest_rows : list row :=
  [["Oak"; "Oak Tree"; "Quercus"];
   ["Elm"; "Elm Tree"; "Ulmus"];
   ["Maple"; "Maple Tree"; "Acer"]].
Definition forest_file : csvfile := plain_file (Verdict false) forest_rows.

(** Three lines of three columns without a header, the second line
    [,,Acer] with nothing in its first two.  The sniffer sees no header. *)
Definition nameless_rows : list row :=
  [["Oak"; "Oak Tree"; "Quercus"];
   [""; ""; "Acer"];
   ["Elm"; "Elm Tree"; "Ulmus"]].
Definition nameless_file : csvfile := plain_file (Verdict false) nameless_rows.

(** A row mapping with the headers [Common Name] and [Common], the first
    with an empty cell. *)
Definition two_commons : columns :=
  [("Common Name", Some ""); ("Common", Some "Foo")].

(** A file whose reader fails after its first line. *)
Definition broken_file (answer : sniffed) : csvfile :=
  {| open_error := None;
     sample_error := None;
     sample_sniffed := answer;
     from_start := {| yielded := [["a"; "b"; "c"]];
                      raised := Some (CsvError "line contains NUL") |};
     past_sample := exhausted |}.

Definition default_args (csv : string) : args :=
  {| csvfile_arg := csv; out := default_out;
     var_name := default_var_name; compact := false |}.

End Samples.

(** ** Further words about the program

    What the properties beyond the specification's claims are stated
    with. *)

(** The normalized field names [low] of [infer_fields]. *)
Definition low_names (fieldnames : option (list string)) : list string :=
  map normalized (match fieldnames with Some l => l | None => [] end).

(** The mapping [infer_fields] returns with ['header']. *)
Definition header_mapping : dict string :=
  [("key", "key"); ("common", "common name");
   ("scientific", "scientific name")].

(** A string begins with white space. *)
Definition head_space (s : string) : bool :=
  match s with
  | EmptyString => false
  | String c _ => is_space c
  end.

(** A string ends with white space. *)
Fixpoint last_space (s : string) : bool :=
  match s with
  | EmptyString => false
  | String c s' =>
      match s' with
      | EmptyString => is_space c
      | String _ _ => last_space s'
      end
  end.

(** No white space at either end. *)
Definition trimmed (s : string) : Prop :=
  head_space s = false /\ last_space s = false.

Definition trimmed_record (r : record) : Prop :=
  trimmed (key r) /\ trimmed (common r) /\ trimmed (scientific r).

(** Every character of [s] satisfies [p]. *)
Fixpoint all_chars (p : ascii -> bool) (s : string) : bool :=
  match s with
  | EmptyString => true
  | String c s' => p c && all_chars p s'
  end.

(** U+0020 or above: not one of the control characters U+0000 to U+001F
    (line feed, carriage return and tab among them).  DEL and the
    characters U+0080 to U+009F are on this side. *)
Definition from_space (c : ascii) : bool := (32 <=? nat_of_ascii c)%nat.

(** A line feed, or U+0020 or above. *)
Definition from_space_or_newline (c : ascii) : bool :=
  from_space c || Ascii.eqb c "010".

(** The record of a row mapping, field by field as [field_value] finds
    them. *)
Definition record_by_name (cols : columns) : record :=
  {| key := field_value "key" cols;
     common := first_non_empty (field_value "common name" cols)
                               (field_value "common" cols);
     scientific := first_non_empty (field_value "scientific name" cols)
                                   (field_value "scientific" cols) |}.

(** The lines a [DictReader] makes rows of: all but the empty ones. *)
Definition non_blank (lines : list row) : list row :=
  filter (fun r => negb (is_nil r)) lines.

(** Some line after the first has more cells than the first. *)
Definition surplus_line (f : csvfile) : Prop :=
  exists header data r,
    yielded (from_start f) = header :: data
    /\ In r data /\ length header < length r.

(** Two row mappings with the same cells under headers that are equal after
    trimming and lower-casing. *)
Definition same_columns (cols cols' : columns) : Prop :=
  map (fun kv => (normalized (fst kv), snd kv)) cols
  = map (fun kv => (normalized (fst kv), snd kv)) cols'.



Module MoreSamples.
Import Samples.

(** A header whose names the program does not know, and two species. *)
Definition plants_rows : list row :=
  [["Name"; "Family"; "Genus"];
   ["Maple"; "Sapindaceae"; "Acer"];
   ["Olive"; "Oleaceae"; "Olea"]].
Definition plants_file : csvfile := plain_file (Verdict true) plants_rows.

(** Headers with other names that contain [key] and [common], and a
    species. *)
Definition keyed_rows : list row :=
  [["Species Key"; "Common"; "Scientific"];
   ["  Oak "; "Oak Tree"; "Quercus"]].
Definition keyed_file : csvfile := plain_file (Verdict true) keyed_rows.

(** The file system of [orchard_file] with an output directory that does
    not let itself be written to. *)
Definition locked_traceback : list string :=
  ["Traceback (most recent call last):";
   "PermissionError: [Errno 13] Permission denied: 'species-data.js'"].
Definition locked_orchard : filesystem :=
  {| file_at := one_file "in.csv" orchard_file;
     write_failure := fun _ => Some locked_traceback |}.

End MoreSamples.

(** The records of the header-keyed pass under any header: the lines that
    are not blank, each read by name, those without a key and a common name
    left out. *)
Definition keyed_records (header : list string) (data : list row)
  : list record :=
  filter has_key_or_common
         (map (fun r => record_by_name (fields (DictReader_row header r)))
              (non_blank data)).

(** The file is parsed by position: the sniffer sees no header, or
    header-keyed parsing finds no record. *)
Definition parsed_by_position (f : csvfile) : Prop :=
  header_assumed f = false \/ header_pass f = Ok [].

(** ** The JSON text as the grammar writes it

    String literals and the two layouts, written here from the JSON grammar
    and from the layout [json.dumps] documents, without the program's
    encoder. *)

(** The characters with a two-character escape, and the letter of it. *)
Definition short_escape (c : ascii) : option ascii :=
  if Ascii.eqb c "034" then Some "034"%char
  else if Ascii.eqb c "\" then Some "\"%char
  else if Ascii.eqb c "008" then Some "b"%char
  else if Ascii.eqb c "012" then Some "f"%char
  else if Ascii.eqb c "010" then Some "n"%char
  else if Ascii.eqb c "013" then Some "r"%char
  else if Ascii.eqb c "009" then Some "t"%char
  else None.

Definition hex_digits : string := "0123456789abcdef".

Definition hex_of (n : nat) : ascii :=
  match String.get n hex_digits with
  | Some c => c
  | None => "0"%char
  end.

(** One character inside a string literal: its short escape if it has one,
    [\u00] and two hexadecimal digits for another character below U+0020,
    and itself otherwise. *)
Definition written_char (c : ascii) : string :=
  match short_escape c with
  | Some e => String "\" (String e "")
  | None =>
      if (nat_of_ascii c <? 32)%nat
      then "\u00" ++ String (hex_of (nat_of_ascii c / 16))
                            (String (hex_of (nat_of_ascii c mod 16)) "")
      else String c ""
  end.

Fixpoint written_chars (s : string) : string :=
  match s with
  | EmptyString => EmptyString
  | String c s' => written_char c ++ written_chars s'
  end.

Definition string_literal (s : string) : string :=
  String "034" (written_chars s ++ String "034" "").

(** A character that stands for itself in a string literal: from U+0020
    on, and neither the quote nor the backslash. *)
Definition plain_char (c : ascii) : bool :=
  ((32 <=? nat_of_ascii c) && negb (nat_of_ascii c =? 34)
   && negb (nat_of_ascii c =? 92))%nat.

(** The compact layout: nothing between the tokens. *)
Definition compact_object (r : record) : string :=
  "{" ++ string_literal "key" ++ ":" ++ string_literal (key r)
  ++ "," ++ string_literal "common" ++ ":" ++ string_literal (common r)
  ++ "," ++ string_literal "scientific" ++ ":"
  ++ string_literal (scientific r) ++ "}".

Fixpoint compact_more (rs : list record) : string :=
  match rs with
  | [] => ""
  | r :: rs' => "," ++ compact_object r ++ compact_more rs'
  end.

Definition compact_layout (records : list record) : string :=
  match records with
  | [] => "[]"
  | r :: rs => "[" ++ compact_object r ++ compact_more rs ++ "]"
  end.

(** The pretty layout: two spaces for each level, one object member a
    line, a colon and a space after its name, a comma at the end of the
    line of every member and object but the last. *)
Definition pretty_object (r : record) : string :=
  "  {" ++ newline
  ++ "    " ++ string_literal "key" ++ ": " ++ string_literal (key r)
  ++ "," ++ newline
  ++ "    " ++ string_literal "common" ++ ": " ++ string_literal (common r)
  ++ "," ++ newline
  ++ "    " ++ string_literal "scientific" ++ ": "
  ++ string_literal (scientific r) ++ newline
  ++ "  }".

Fixpoint pretty_objects (rs : list record) : string :=
  match rs with
  | [] => ""
  | r :: rs' => "," ++ newline ++ pretty_object r ++ pretty_objects rs'
  end.

Definition pretty_layout (records : list record) : string :=
  match records with
  | [] => "[]"
  | r :: rs =>
      "[" ++ newline ++ pretty_object r ++ pretty_objects rs
      ++ newline ++ "]"
  end.

(** * Properties *)

(** ** Strings *)

Lemma append_assoc (a b c : string) : (a ++ b) ++ c = a ++ b ++ c.
Proof.
  induction a as [|x a IH]; simpl; [reflexivity | now rewrite IH].
Qed.

Lemma append_nil_r (a : string) : a ++ "" = a.
Proof.
  induction a as [|x a IH]; simpl; [reflexivity | now rewrite IH].
Qed.

Lemma append_inj_l (a b c : string) : a ++ b = a ++ c -> b = c.
Proof.
  induction a as [|x a IH]; simpl; intros H; [exact H |].
  injection H as H. now apply IH.
Qed.

Lemma truthy_false (s : string) : truthy s = false <-> s = "".
Proof.
  destruct s; simpl; split; intros H; try reflexivity; discriminate.
Qed.

Lemma str_or_empty (s : string) : str_or s "" = s.
Proof. now destruct s. Qed.

Lemma rstrip_idem (s : string) : rstrip (rstrip s) = rstrip s.
Proof.
  induction s as [|c s IH]; simpl; [reflexivity |].
  destruct (rstrip s) as [|d t] eqn:E.
  - destruct (is_space c) eqn:Ec; simpl; [reflexivity | now rewrite Ec].
  - simpl. simpl in IH. now rewrite IH.
Qed.

(** A string with a first character that is no space keeps it under
    [rstrip]. *)
Lemma rstrip_head (c : ascii) (s : string) :
  is_space c = false -> exists t, rstrip (String c s) = String c t.
Proof.
  intros Hc. simpl. destruct (rstrip s) as [|d t].
  - rewrite Hc. now exists "".
  - now exists (String d t).
Qed.

Lemma lstrip_head (s : string) :
  lstrip s = "" \/ exists c t, lstrip s = String c t /\ is_space c = false.
Proof.
  induction s as [|c s IH]; simpl; [now left |].
  destruct (is_space c) eqn:Ec; [exact IH |].
  right. now exists c, s.
Qed.

Lemma strip_idem (s : string) : strip (strip s) = strip s.
Proof.
  unfold strip. destruct (lstrip_head s) as [E | (c & t & E & Hc)]; rewrite E.
  - reflexivity.
  - destruct (rstrip_head c t Hc) as (u & Eu). rewrite Eu. simpl lstrip.
    rewrite Hc, <- Eu. apply rstrip_idem.
Qed.

(** ** The two builders and the filter *)

Lemma no_key_no_common_spec (rec : record) :
  no_key_no_common rec = negb (has_key_or_common rec).
Proof.
  unfold no_key_no_common, has_key_or_common.
  now destruct (truthy (key rec)), (truthy (common rec)).
Qed.

Lemma nth_map_strip (i : nat) (r : row) :
  nth i (map strip r) "" = strip (nth i r "").
Proof.
  change "" with (strip "") at 1. apply map_nth.
Qed.

(** On trimmed cells the positional builder gives the trimmed first three
    cells. *)
Lemma build_records_from_rowlist_trimmed (r : row) :
  build_records_from_rowlist (map strip r) = first_three r.
Proof.
  unfold build_records_from_rowlist, first_three.
  now rewrite !str_or_empty, !nth_map_strip, !strip_idem.
Qed.

(** A row the program skips because all its cells are empty would have been
    skipped for its key and common name as well. *)
Lemma all_empty_no_record (r : row) :
  existsb truthy (map strip r) = false ->
  has_key_or_common (first_three r) = false.
Proof.
  intros H. unfold has_key_or_common, first_three. simpl.
  destruct r as [|a [|b r]]; simpl in *; try reflexivity.
  - now apply orb_false_elim in H as [-> _].
  - apply orb_false_elim in H as [-> H].
    now apply orb_false_elim in H as [-> _].
Qed.

Lemma row_loop_spec (rows : list row) (tail : option library_error)
    (acc : list record) :
  row_loop rows tail acc
  = (_ <- check tail ;; Ok (acc ++ positional_records rows)%list).
Proof.
  revert acc. induction rows as [|r rows IH]; intros acc.
  - simpl. unfold positional_records. simpl. now rewrite app_nil_r.
  - cbn [row_loop]. unfold positional_records in *. cbn [map filter].
    rewrite build_records_from_rowlist_trimmed, no_key_no_common_spec.
    destruct (existsb truthy (map strip r)) eqn:E; cbn [negb].
    + destruct (has_key_or_common (first_three r)); cbn [negb].
      * rewrite IH. now rewrite <- app_assoc.
      * apply IH.
    + rewrite (all_empty_no_record r E). apply IH.
Qed.

(** ** The shape of a conversion *)

Lemma check_ok (o : option library_error) : check o = Ok tt -> o = None.
Proof. destruct o; simpl; [discriminate | reflexivity]. Qed.

(** On a file that opens, the conversion is the header pass when the
    sniffer's answer counts as a header and that pass gives a record, and
    the positional pass over the whole file otherwise. *)
Lemma convert_present (fs : filesystem) (path : string) (f : csvfile) :
  fs path = Some f -> opens f ->
  convert_csv_to_records fs path
  = if header_assumed f
    then records <- header_pass f ;;
         if negb (is_nil records) then Ok records else positional_pass f
    else positional_pass f.
Proof.
  intros Hf [Ho Hs]. unfold convert_csv_to_records, header_assumed.
  rewrite Hf, Ho, Hs. cbn [check bind].
  unfold header_pass, positional_pass, plain_rows. cbn.
  destruct (sample_sniffed f) as [[|]|]; try reflexivity;
    destruct (DictReader_fieldnames (from_start f)) as [[fn s]|e];
    cbn; try reflexivity;
    destruct (dict_loop _ _ _ _) as [[|r records]|e']; reflexivity.
Qed.

Lemma positional_pass_spec (f : csvfile) :
  positional_pass f
  = (_ <- check (raised (from_start f)) ;;
     Ok (positional_records (yielded (from_start f)))).
Proof. unfold positional_pass. now rewrite row_loop_spec. Qed.

(** What the header loop returns extends the list it started from by
    records with a key or a common name, and the reader has ended without
    an exception. *)
Lemma dict_loop_ok (hm : string * option (dict string)) (rows : list dictrow)
    (tail : option library_error) (acc records : list record) :
  dict_loop hm rows tail acc = Ok records ->
  tail = None
  /\ exists more, records = (acc ++ more)%list
                  /\ Forall (fun r => has_key_or_common r = true) more.
Proof.
  revert acc. induction rows as [|row rows IH]; intros acc; cbn [dict_loop].
  - destruct tail; cbn; [discriminate |]. intros [= <-]. split; [reflexivity |].
    exists []. now rewrite app_nil_r.
  - destruct (build_records_from_dictrow row hm) as [rec|e]; cbn [bind];
      [| discriminate].
    rewrite no_key_no_common_spec.
    destruct (has_key_or_common rec) eqn:E; cbn [negb]; intros H.
    + destruct (IH _ H) as (Ht & more & -> & Hm). split; [exact Ht |].
      exists (rec :: more). rewrite <- app_assoc. split; [reflexivity |].
      now constructor.
    + exact (IH _ H).
Qed.

Lemma header_pass_ok (f : csvfile) (records : list record) :
  header_pass f = Ok records ->
  raised (from_start f) = None
  /\ Forall (fun r => has_key_or_common r = true) records.
Proof.
  unfold header_pass, DictReader_fieldnames.
  destruct (yielded (from_start f)) as [|h rest].
  - destruct (raised (from_start f)); cbn; [discriminate |].
    intros [= <-]. now split.
  - cbn. intros H. apply dict_loop_ok in H as (Ht & more & -> & Hm).
    now split.
Qed.

Lemma positional_records_ok (rows : list row) :
  Forall (fun r => has_key_or_common r = true) (positional_records rows).
Proof.
  unfold positional_records. apply Forall_forall. intros r Hr.
  now apply filter_In in Hr.
Qed.

Lemma has_key_or_common_true (r : record) :
  has_key_or_common r = true <-> key r <> "" \/ common r <> "".
Proof.
  unfold has_key_or_common. destruct (key r), (common r); simpl; split;
    intros H; try reflexivity; try discriminate;
    try (left; discriminate); try (right; discriminate).
  destruct H as [H | H]; now elim H.
Qed.

Lemma convert_missing (fs : filesystem) (path : string) :
  fs path = None ->
  convert_csv_to_records fs path = Raise (FileNotFoundError path).
Proof. intros H. unfold convert_csv_to_records. now rewrite H. Qed.

(** A file that does not open, or whose sample does not decode, ends the
    conversion with the library's exception. *)
Lemma convert_unreadable (fs : filesystem) (path : string) (f : csvfile) :
  fs path = Some f -> ~ opens f ->
  exists e, convert_csv_to_records fs path = Raise (Library e).
Proof.
  intros Hf Hn. unfold convert_csv_to_records. rewrite Hf.
  destruct (open_error f) as [e|] eqn:Ho; cbn; [now exists e |].
  destruct (sample_error f) as [e|] eqn:Hs; cbn; [now exists e |].
  elim Hn. now split.
Qed.

Lemma opens_dec (f : csvfile) : opens f \/ ~ opens f.
Proof.
  unfold opens. destruct (open_error f), (sample_error f);
    try (now left); right; intros [H1 H2]; discriminate.
Qed.

(** ** C2: header pass first, positional pass on an empty result *)

(** C2.  On a file parsed with its header, when header-keyed parsing gives
    no record the file is read again from its start and parsed
    positionally (plain rows, cells trimmed, rows without a key and a common
    name left out, the first line included), and that is the result; when
    header-keyed parsing gives at least one record, those records are the
    result and nothing of a positional pass is in it. *)
Theorem header_pass_then_positional
    (fs : filesystem) (path : string) (f : csvfile) (records : list record) :
  fs path = Some f -> opens f -> header_assumed f = true ->
  header_pass f = Ok records ->
  positional_pass f = Ok (positional_records (yielded (from_start f)))
  /\ convert_csv_to_records fs path
     = match records with
       | [] => positional_pass f
       | _ :: _ => Ok records
       end.
Proof.
  intros Hf Ho Hh Hp. split.
  - rewrite positional_pass_spec.
    now destruct (header_pass_ok f records Hp) as [-> _].
  - rewrite (convert_present fs path f Hf Ho), Hh, Hp. cbn [bind].
    now destruct records.
Qed.

(** ** C3: no record without a key and a common name *)

Lemma convert_ok_records (fs : filesystem) (path : string)
    (records : list record) :
  convert_csv_to_records fs path = Ok records ->
  Forall (fun r => has_key_or_common r = true) records.
Proof.
  intros H. destruct (fs path) as [f|] eqn:Hf.
  - destruct (opens_dec f) as [Ho | Hn].
    + rewrite (convert_present fs path f Hf Ho) in H.
      assert (Hpos : forall rs, positional_pass f = Ok rs ->
                Forall (fun r => has_key_or_common r = true) rs).
      { intros rs. rewrite positional_pass_spec.
        destruct (raised (from_start f)); cbn; [discriminate |].
        intros [= <-]. apply positional_records_ok. }
      destruct (header_assumed f); [| now apply Hpos].
      destruct (header_pass f) as [rs|e] eqn:Hp; cbn [bind] in H;
        [| discriminate].
      destruct rs as [|r rs]; cbn in H; [now apply Hpos |].
      injection H as <-. now apply header_pass_ok in Hp.
    + destruct (convert_unreadable fs path f Hf Hn) as [e He].
      rewrite He in H. discriminate.
  - rewrite (convert_missing fs path Hf) in H. discriminate.
Qed.

(** C3.  In both parse modes, every record the conversion returns has a
    non-empty key or a non-empty common name: a row whose key and common
    name both come out empty contributes no record. *)
Theorem records_have_key_or_common
    (fs : filesystem) (path : string) (records : list record) :
  convert_csv_to_records fs path = Ok records ->
  Forall (fun r => key r <> "" \/ common r <> "") records.
Proof.
  intros H. apply convert_ok_records in H.
  eapply Forall_impl; [| exact H]. intros r. apply has_key_or_common_true.
Qed.

(** ** C4: positional parsing *)

Lemma filter_all {A} (p : A -> bool) (l : list A) :
  Forall (fun x => p x = true) l -> filter p l = l.
Proof.
  induction 1 as [|x l Hx _ IH]; simpl; [reflexivity |].
  now rewrite Hx, IH.
Qed.

(** C4, as the program has it.  On a file that is parsed by position,
    because the sniffer sees no header or because header-keyed parsing
    finds no record, the records are the trimmed first three cells of the
    rows, in row order: key from cell 0, common name from cell 1,
    scientific name from cell 2, the empty string for a cell the row does
    not have; the rows left out are those without a key and a common name.
    When every row has one of the two, there is one record for each row. *)
Theorem positional_rows_in_order
    (fs : filesystem) (path : string) (f : csvfile) (rows : list row) :
  fs path = Some f -> opens f -> parsed_by_position f ->
  from_start f = {| yielded := rows; raised := None |} ->
  convert_csv_to_records fs path
  = Ok (filter has_key_or_common (map first_three rows))
  /\ (Forall (fun r => has_key_or_common (first_three r) = true) rows ->
      convert_csv_to_records fs path = Ok (map first_three rows)).
Proof.
  intros Hf Ho Hp Hs.
  assert (E : convert_csv_to_records fs path
              = Ok (filter has_key_or_common (map first_three rows))).
  { rewrite (convert_present fs path f Hf Ho), positional_pass_spec, Hs.
    destruct Hp as [-> | Hp]; [reflexivity |].
    rewrite Hp. now destruct (header_assumed f). }
  split; [exact E |].
  intros Hall. rewrite E. f_equal. apply filter_all.
  now apply Forall_map.
Qed.

(** ** C7: the two kinds of error *)

Lemma convert_raises_not_found (fs : filesystem) (path p : string) :
  convert_csv_to_records fs path = Raise (FileNotFoundError p) ->
  fs path = None.
Proof.
  intros H. destruct (fs path) as [f|] eqn:Hf; [| reflexivity].
  exfalso. destruct (opens_dec f) as [Ho | Hn].
  - rewrite (convert_present fs path f Hf Ho) in H.
    assert (Hpos : positional_pass f <> Raise (FileNotFoundError p)).
    { rewrite positional_pass_spec.
      destruct (raised (from_start f)); cbn; discriminate. }
    assert (Hloop : forall hm rows tail acc,
              dict_loop hm rows tail acc <> Raise (FileNotFoundError p)).
    { intros hm rows tail. induction rows as [|row rows IH]; intros acc;
        cbn [dict_loop].
      - destruct tail; cbn; discriminate.
      - unfold build_records_from_dictrow.
        destruct (restkey row); cbn [bind]; [discriminate |].
        destruct (no_key_no_common _); apply IH. }
    destruct (header_assumed f); [| now apply Hpos].
    destruct (header_pass f) as [rs|e] eqn:Hp; cbn [bind] in H.
    + destruct rs; cbn in H; [now apply Hpos | discriminate].
    + injection H as ->. revert Hp. unfold header_pass, DictReader_fieldnames.
      destruct (yielded (from_start f)).
      * destruct (raised (from_start f)); cbn; discriminate.
      * cbn. apply Hloop.
  - destruct (convert_unreadable fs path f Hf Hn) as [e He].
    rewrite He in H. discriminate.
Qed.

(** The reader's exception is not swallowed: a file whose reader fails
    makes the conversion raise. *)
Lemma convert_reader_fails (fs : filesystem) (path : string) (f : csvfile)
    (e : library_error) :
  fs path = Some f -> raised (from_start f) = Some e ->
  exists e', convert_csv_to_records fs path = Raise e'.
Proof.
  intros Hf He. destruct (opens_dec f) as [Ho | Hn].
  - rewrite (convert_present fs path f Hf Ho).
    assert (Hpos : positional_pass f = Raise (Library e)).
    { rewrite positional_pass_spec, He. reflexivity. }
    destruct (header_assumed f); [| now exists (Library e)].
    destruct (header_pass f) as [rs|e'] eqn:Hp; cbn [bind];
      [| now exists e'].
    apply header_pass_ok in Hp as [Ht _]. congruence.
  - destruct (convert_unreadable fs path f Hf Hn) as [e' He'].
    now exists (Library e').
Qed.

(** C7.  The conversion fails with [FileNotFoundError] exactly when the
    path does not exist.  Every failure of the conversion ends the run with
    exit status 2, a line on standard error and no output file: the
    not-found message for a missing path, the read-error message with the
    exception's text for anything else.  Status 2 is for these two kinds of
    error only: a conversion that returns ends with status 0, or with
    status 1 when the output file cannot be written.  A file that does not
    open, does not decode or stops the reader with an exception is a
    failure of the conversion. *)
Theorem not_found_iff_missing (fs : filesystem) (a : args) :
  ((exists p, convert_csv_to_records fs (csvfile_arg a)
              = Raise (FileNotFoundError p))
   <-> fs (csvfile_arg a) = None)
  /\ match convert_csv_to_records fs (csvfile_arg a) with
     | Raise e =>
         main fs a
         = {| exit_code := 2;
              stderr := [match fs (csvfile_arg a) with
                         | None => "Error: file not found: " ++ csvfile_arg a
                         | Some _ => "Error reading CSV: " ++ exn_message e
                         end];
              stdout := [];
              written := None |}
     | Ok _ =>
         exit_code (main fs a)
         = match write_failure fs (Path (out a)) with
           | Some _ => 1%Z
           | None => 0%Z
           end
     end
  /\ (forall f, fs (csvfile_arg a) = Some f ->
      open_error f <> None \/ sample_error f <> None
      \/ raised (from_start f) <> None ->
      exit_code (main fs a) = 2%Z).
Proof.
  split; [| split].
  - split.
    + intros [p Hp]. exact (convert_raises_not_found _ _ _ Hp).
    + intros H. exists (csvfile_arg a). now apply convert_missing.
  - unfold main.
    destruct (convert_csv_to_records fs (csvfile_arg a)) as [rs|e] eqn:E.
    + cbn [write_js]. now destruct (write_failure fs (Path (out a))).
    + destruct e as [p| |e].
      * now rewrite (convert_raises_not_found _ _ _ E).
      * destruct (fs (csvfile_arg a)) eqn:Hf; [reflexivity |].
        rewrite (convert_missing _ _ Hf) in E. discriminate.
      * destruct (fs (csvfile_arg a)) eqn:Hf; [reflexivity |].
        rewrite (convert_missing _ _ Hf) in E. discriminate.
  - intros f Hf H.
    assert (Hr : exists e, convert_csv_to_records fs (csvfile_arg a) = Raise e).
    { destruct (raised (from_start f)) as [e|] eqn:He.
      - exact (convert_reader_fails _ _ _ _ Hf He).
      - destruct (convert_unreadable fs (csvfile_arg a) f Hf) as [e' He'].
        + intros [Ho Hs]. destruct H as [H | [H | H]]; now apply H.
        + now exists (Library e'). }
    destruct Hr as [e He]. unfold main. rewrite He.
    destruct e as [p| |e]; reflexivity.
Qed.

(** ** C10: a row longer than the header *)

Lemma build_records_from_dictrow_outcome (row : dictrow)
    (hm : string * option (dict string)) :
  match restkey row with
  | Some _ => build_records_from_dictrow row hm = Raise AttributeError
  | None => exists rec, build_records_from_dictrow row hm = Ok rec
  end.
Proof.
  unfold build_records_from_dictrow. destruct (restkey row);
    [reflexivity | eexists; reflexivity].
Qed.

(** The header loop stops with [AttributeError] at the first row that has
    cells under the key [None], whatever came before it. *)
Lemma dict_loop_surplus (hm : string * option (dict string))
    (rows : list dictrow) (tail : option library_error) (acc : list record) :
  Exists (fun row => restkey row <> None) rows ->
  dict_loop hm rows tail acc = Raise AttributeError.
Proof.
  intros H. revert acc. induction rows as [|row rows IH]; intros acc.
  - inversion H.
  - cbn [dict_loop].
    pose proof (build_records_from_dictrow_outcome row hm) as Hb.
    destruct (restkey row) as [l|] eqn:Er.
    + now rewrite Hb.
    + destruct Hb as [rec ->]. cbn [bind].
      assert (Hrows : Exists (fun row => restkey row <> None) rows).
      { inversion H as [? ? Hx | ? ? Hx]; subst; [| exact Hx].
        now elim Hx. }
      destruct (no_key_no_common rec); now apply IH.
Qed.

Lemma DictReader_row_surplus (header : list string) (r : row) :
  length header < length r ->
  restkey (DictReader_row header r) = Some (skipn (length header) r).
Proof.
  intros H. unfold DictReader_row.
  now apply Nat.ltb_lt in H as ->.
Qed.

(** C10.  In header-keyed mode, a data row with more cells than the header
    has columns makes record construction raise: the surplus cells sit
    under the key [None], and trimming that key fails.  The conversion
    stops there with that exception, and the run ends as a read error with
    status 2 and no output, whatever the rows before and after would have
    given. *)
Theorem surplus_cells_abort (fs : filesystem) (a : args) (f : csvfile)
    (header : list string) (data : list row) (r : row) :
  fs (csvfile_arg a) = Some f -> opens f -> header_assumed f = true ->
  yielded (from_start f) = header :: data ->
  In r data -> length header < length r ->
  build_records_from_dictrow (DictReader_row header r)
                             (infer_fields (Some header))
  = Raise AttributeError
  /\ convert_csv_to_records fs (csvfile_arg a) = Raise AttributeError
  /\ main fs a
     = {| exit_code := 2;
          stderr := ["Error reading CSV: " ++ exn_message AttributeError];
          stdout := [];
          written := None |}.
Proof.
  intros Hf Ho Hh Hy Hr Hlen.
  assert (Hrow : restkey (DictReader_row header r) <> None).
  { rewrite (DictReader_row_surplus header r Hlen). discriminate. }
  assert (Hc : convert_csv_to_records fs (csvfile_arg a) = Raise AttributeError).
  { rewrite (convert_present fs _ f Hf Ho), Hh.
    unfold header_pass, DictReader_fieldnames. rewrite Hy. cbn.
    rewrite dict_loop_surplus; [reflexivity |].
    apply Exists_exists. exists (DictReader_row header r). split; [| exact Hrow].
    apply in_map, filter_In. split; [exact Hr |].
    destruct r; [inversion Hlen | reflexivity]. }
  split; [| split].
  - pose proof (build_records_from_dictrow_outcome
                  (DictReader_row header r) (infer_fields (Some header))) as Hb.
    now rewrite (DictReader_row_surplus header r Hlen) in Hb.
  - exact Hc.
  - unfold main. now rewrite Hc.
Qed.

Import Samples.

(** ** C8: nothing to convert *)

(** An empty file converts to the empty sequence, whatever the sniffer
    says of it. *)
Lemma convert_empty_file (fs : filesystem) (path : string) (f : csvfile) :
  fs path = Some f -> opens f -> from_start f = exhausted ->
  convert_csv_to_records fs path = Ok [].
Proof.
  intros Hf Ho He. rewrite (convert_present fs path f Hf Ho).
  unfold header_pass, positional_pass. rewrite He.
  now destruct (header_assumed f).
Qed.

(** The text written for the empty sequence, with the default variable. *)
Lemma write_js_empty (out_path : string) :
  write_js [] out_path default_var_name false
  = (Path out_path, "window.__speciesRecords = [];" ++ newline)
  /\ write_js [] out_path default_var_name true
     = (Path out_path, "window.__speciesRecords=[];" ++ newline).
Proof. split; reflexivity. Qed.

(** C8.  Two lines of commas: every cell of the input is empty, no row has
    a key or a common name in either mode, and the conversion does not
    return the empty sequence: the second line has one cell more than the
    first, which is taken as the header, record construction raises, and the
    run ends with status 2 and writes nothing. *)
Theorem no_qualifying_rows_yet_error :
  Forall (Forall (fun c => c = "")) comma_rows
  /\ positional_records comma_rows = []
  /\ convert_csv_to_records (one_file "in.csv" comma_file) "in.csv"
     = Raise AttributeError
  /\ exit_code (main (one_file "in.csv" comma_file) (default_args "in.csv"))
     = 2%Z
  /\ written (main (one_file "in.csv" comma_file) (default_args "in.csv"))
     = None.
Proof. repeat split; repeat constructor. Qed.

(** ** Instances on the sample inputs *)

Lemma header_pass_then_positional_witness :
  positional_pass (plain_file (Verdict true) abc_rows)
  = Ok (positional_records abc_rows)
  /\ convert_csv_to_records
       (one_file "in.csv" (plain_file (Verdict true) abc_rows)) "in.csv"
     = positional_pass (plain_file (Verdict true) abc_rows).
Proof.
  exact (header_pass_then_positional
           (one_file "in.csv" (plain_file (Verdict true) abc_rows)) "in.csv"
           (plain_file (Verdict true) abc_rows) []
           eq_refl (conj eq_refl eq_refl) eq_refl eq_refl).
Defined.

Lemma records_have_key_or_common_witness :
  Forall (fun r => key r <> "" \/ common r <> "") [maple; olive].
Proof.
  exact (records_have_key_or_common
           (one_file "in.csv" orchard_file) "in.csv" [maple; olive] eq_refl).
Defined.

Lemma positional_rows_in_order_witness :
  convert_csv_to_records
    (one_file "in.csv" (plain_file (Verdict true) abc_rows)) "in.csv"
  = Ok [{| key := "a"; common := "b"; scientific := "c" |}]
  /\ (Forall (fun r => has_key_or_common (first_three r) = true) abc_rows ->
      convert_csv_to_records
        (one_file "in.csv" (plain_file (Verdict true) abc_rows)) "in.csv"
      = Ok (map first_three abc_rows)).
Proof.
  exact (positional_rows_in_order
           (one_file "in.csv" (plain_file (Verdict true) abc_rows)) "in.csv"
           (plain_file (Verdict true) abc_rows) abc_rows
           eq_refl (conj eq_refl eq_refl) (or_intror eq_refl) eq_refl).
Defined.

(** C4, as the specification words it, fails: a row of three columns with
    nothing in the first two gives no record, so the records are not the
    first three cells of each row. *)
Lemma row_without_key_and_common_dropped :
  Forall (fun r => 3 <= length r) nameless_rows
  /\ map first_three nameless_rows
     = [oak; {| key := ""; common := ""; scientific := "Acer" |}; elm]
  /\ convert_csv_to_records (one_file "in.csv" nameless_file) "in.csv"
     = Ok [oak; elm].
Proof.
  split; [repeat constructor |]. split; reflexivity.
Qed.

Lemma surplus_cells_abort_witness :
  build_records_from_dictrow
    (DictReader_row species_header ["Oak"; "Oak Tree"; "Quercus"; "extra"])
    (infer_fields (Some species_header))
  = Raise AttributeError
  /\ convert_csv_to_records (one_file "in.csv" surplus_file) "in.csv"
     = Raise AttributeError
  /\ main (one_file "in.csv" surplus_file) (default_args "in.csv")
     = {| exit_code := 2;
          stderr := ["Error reading CSV: " ++ exn_message AttributeError];
          stdout := [];
          written := None |}.
Proof.
  refine (surplus_cells_abort
            (one_file "in.csv" surplus_file) (default_args "in.csv")
            surplus_file species_header (tl surplus_rows)
            ["Oak"; "Oak Tree"; "Quercus"; "extra"]
            eq_refl (conj eq_refl eq_refl) eq_refl eq_refl
            (or_introl eq_refl) _).
  simpl. lia.
Defined.

(** ** Dictionaries built from a list of pairs *)

Section DictFacts.
Context {V : Type}.
Implicit Types (d : dict V) (l : list (string * V)).

Lemma dict_get_set k k' v d :
  dict_get k (dict_set k' v d)
  = if String.eqb k' k then Some v else dict_get k d.
Proof.
  induction d as [|[k0 v0] d IH]; cbn.
  - now destruct (String.eqb k' k).
  - destruct (String.eqb k0 k') eqn:E0; cbn.
    + apply String.eqb_eq in E0 as ->. now destruct (String.eqb k' k).
    + destruct (String.eqb k0 k) eqn:E1; [| exact IH].
      apply String.eqb_eq in E1 as ->.
      now rewrite String.eqb_sym, E0.
Qed.

(** Looking a key up after a run of assignments: the last assignment to
    it, or what was there before. *)
Lemma dict_get_update k d l :
  dict_get k (dict_update d l)
  = match last_value k l with
    | Some v => Some v
    | None => dict_get k d
    end.
Proof.
  revert d. induction l as [|[k0 v0] l IH]; intros d; cbn; [reflexivity |].
  unfold dict_update in *. cbn. rewrite IH, dict_get_set.
  destruct (last_value k l); [reflexivity |].
  now destruct (String.eqb k0 k).
Qed.

Lemma find_skip (P : string -> bool) (a rest : list string) (k : string) :
  P k = false -> find P (a ++ k :: rest) = find P (a ++ rest).
Proof.
  intros Hk. induction a as [|x a IH]; cbn; [now rewrite Hk |].
  now rewrite IH.
Qed.

Lemma find_present (P : string -> bool) (a r1 r2 : list string) (k : string) :
  In k a -> P k = true -> find P (a ++ r1) = find P (a ++ r2).
Proof.
  intros Hin Hk. induction a as [|x a IH]; cbn; [inversion Hin |].
  destruct (P x) eqn:Ex; [reflexivity |].
  destruct Hin as [-> | Hin]; [congruence | now apply IH].
Qed.

(** Assigning to a key keeps the order of the keys: a new key goes to the
    end, a key that is there stays where it is. *)
Lemma find_keys_set (P : string -> bool) k v d (rest : list string) :
  find P (map fst (dict_set k v d) ++ rest)
  = find P (map fst d ++ k :: rest).
Proof.
  induction d as [|[k0 v0] d IH]; cbn; [reflexivity |].
  destruct (String.eqb k0 k) eqn:E0; cbn.
  - apply String.eqb_eq in E0 as ->.
    destruct (P k) eqn:Ek; [reflexivity |]. now rewrite find_skip.
  - now rewrite IH.
Qed.

Lemma find_keys_update (P : string -> bool) d l :
  find P (map fst (dict_update d l)) = find P (map fst d ++ map fst l).
Proof.
  revert d. induction l as [|[k0 v0] l IH]; intros d; cbn.
  - now rewrite app_nil_r.
  - unfold dict_update in *. cbn. rewrite IH. apply find_keys_set.
Qed.

Lemma find_fst (P : string -> bool) d :
  find P (map fst d) = option_map fst (find (fun e => P (fst e)) d).
Proof.
  induction d as [|[k0 v0] d IH]; cbn; [reflexivity |].
  now destruct (P k0).
Qed.

(** The first entry whose key satisfies [P] is the entry of its key. *)
Lemma find_is_entry (P : string -> bool) d e :
  find (fun e => P (fst e)) d = Some e -> dict_get (fst e) d = Some (snd e).
Proof.
  induction d as [|[k0 v0] d IH]; cbn; [discriminate |].
  destruct (P k0) eqn:E0.
  - intros [= <-]. cbn. now rewrite String.eqb_refl.
  - intros H. destruct (String.eqb k0 (fst e)) eqn:E1; [| now apply IH].
    apply String.eqb_eq in E1 as ->. apply find_some in H as [_ H].
    congruence.
Qed.

Lemma last_value_map {W} (f : string * V -> string) (h : string * V -> W)
    k l :
  last_value k (map (fun kv => (f kv, h kv)) l)
  = option_map (fun kv => h kv)
      (last_value k (map (fun kv => (f kv, kv)) l)).
Proof.
  induction l as [|kv l IH]; cbn; [reflexivity |].
  rewrite IH.
  destruct (last_value k (map (fun kv => (f kv, kv)) l)); cbn;
    [reflexivity |].
  now destruct (String.eqb (f kv) k).
Qed.
End DictFacts.

(** ** C9: how a field is found in a row mapping *)


Lemma lookup_exact (name : string) (cols : columns) :
  option_map snd (dict_get name (lookup_of cols)) = cell_named name cols.
Proof.
  unfold lookup_of, dict_of_list, cell_named, normalized.
  rewrite dict_get_update. cbn [dict_get].
  rewrite (last_value_map (fun kv => lower (strip (fst kv))) snd).
  now destruct (last_value name _).
Qed.

Lemma lookup_first_containing (name : string) (cols : columns) :
  option_map fst (find (fun e => contains name (fst e)) (lookup_of cols))
  = first_header_containing name cols.
Proof.
  unfold lookup_of, dict_of_list, first_header_containing, normalized.
  rewrite <- find_fst, find_keys_update. cbn [map app].
  now rewrite map_map.
Qed.

(** The inner function [g] looks a name up as the specification's
    [field_value] does on the columns. *)
Lemma g_field_value (name : string) (cols : columns) :
  g (lookup_of cols) name = field_value name cols.
Proof.
  unfold g, field_value.
  rewrite <- lookup_exact, <- lookup_first_containing.
  destruct (dict_get name (lookup_of cols)) as [kv|]; cbn; [reflexivity |].
  destruct (find _ (lookup_of cols)) as [e|] eqn:Ef; cbn; [| reflexivity].
  rewrite <- lookup_exact.
  now rewrite (find_is_entry (contains name) _ e Ef).
Qed.

Lemma str_or_first_non_empty (a b : string) :
  str_or a b = first_non_empty a b.
Proof. now destruct a. Qed.

(** C9, as the program has it.  For every row mapping, each field is
    looked up by a name.  Headers count trimmed and lower-cased.  The
    lookup takes the header that is the name itself; without one, the first
    header in column order that contains the name; without one, nothing:
    the empty string.  The value is the trimmed cell under that header, and
    when several columns have that header, the cell of the last of them.
    The key is looked up as [key].  The common name is looked up as
    [common name], and as [common] when that gives the empty string, be it
    for want of a header or because the cell is empty; the scientific name
    likewise as [scientific name], then [scientific]. *)
Theorem fields_by_name_then_substring (cols : columns)
    (headers_mode : string * option (dict string)) :
  build_records_from_dictrow {| fields := cols; restkey := None |} headers_mode
  = Ok {| key := field_value "key" cols;
          common := first_non_empty (field_value "common name" cols)
                                    (field_value "common" cols);
          scientific := first_non_empty (field_value "scientific name" cols)
                                        (field_value "scientific" cols) |}.
Proof.
  unfold build_records_from_dictrow. cbn [restkey fields].
  fold (lookup_of cols).
  now rewrite !g_field_value, !str_or_first_non_empty.
Qed.

(** Three columns [My Key], [X] and [my key] with the cells [a], [b] and
    [c]: the first header that contains [key] is [my key], the last column
    with that header holds [c], and the key is [c]. *)
Example repeated_header_last_cell :
  fields (DictReader_row ["My Key"; "X"; "my key"] ["a"; "b"; "c"])
  = [("My Key", Some "a"); ("X", Some "b"); ("my key", Some "c")]
  /\ first_header_containing "key"
       [("My Key", Some "a"); ("X", Some "b"); ("my key", Some "c")]
     = Some "my key"
  /\ cell_named "my key"
       [("My Key", Some "a"); ("X", Some "b"); ("my key", Some "c")]
     = Some (Some "c")
  /\ build_records_from_dictrow
       (DictReader_row ["My Key"; "X"; "my key"] ["a"; "b"; "c"])
       (infer_fields (Some ["My Key"; "X"; "my key"]))
     = Ok {| key := "c"; common := ""; scientific := "" |}.
Proof. repeat split. Qed.

(** C9, as the specification words it, fails: with the headers
    [Common Name] and [Common] and an empty cell under the first, the
    header [common name] is there, and the common name is taken from the
    header [Common] all the same. *)
Lemma common_name_present_yet_common_used :
  fields (DictReader_row ["Common Name"; "Common"] [""; "Foo"]) = two_commons
  /\ cell_named "common name" two_commons = Some (Some "")
  /\ claimed_common two_commons = ""
  /\ exists rec,
       build_records_from_dictrow
         (DictReader_row ["Common Name"; "Common"] [""; "Foo"])
         (infer_fields (Some ["Common Name"; "Common"]))
       = Ok rec
       /\ common rec = "Foo"
       /\ common rec <> claimed_common two_commons.
Proof.
  split; [reflexivity |]. split; [reflexivity |]. split; [reflexivity |].
  eexists. split; [reflexivity |]. split; [reflexivity | discriminate].
Qed.

(** ** C1: a header with the three columns *)

Lemma str_or_same (s : string) : str_or s s = s.
Proof. now destruct s. Qed.

Section NamedRows.
#[local] Arguments strip : simpl never.
#[local] Arguments lower : simpl never.
#[local] Arguments normalized : simpl never.
#[local] Arguments str_or : simpl never.
#[local] Arguments cell_text : simpl never.

(** Under a header with the three names, a row that is not longer than
    the header gives the record of its three named cells. *)
Lemma build_named_record (header : list string) (r : row)
    (hm : string * option (dict string)) :
  three_columns header -> r <> [] -> length r <= length header ->
  build_records_from_dictrow (DictReader_row header r) hm
  = Ok (named_record header r).
Proof.
  intros (Hl & Hk & Hc & Hs) Hr Hlen. rewrite Hl in Hlen.
  destruct header as [|a [|b [|c [|]]]]; try discriminate. clear Hl.
  cbn in Hk, Hc, Hs.
  assert (Hab : normalized a <> normalized b ->
                (a =? b) = false /\ (b =? a) = false).
  { intros H. split; apply String.eqb_neq; intros ->; now apply H. }
  assert (Hac : normalized a <> normalized c ->
                (a =? c) = false /\ (c =? a) = false).
  { intros H. split; apply String.eqb_neq; intros ->; now apply H. }
  assert (Hbc : normalized b <> normalized c ->
                (b =? c) = false /\ (c =? b) = false).
  { intros H. split; apply String.eqb_neq; intros ->; now apply H. }
  destruct Hk as [Hk | [Hk | [Hk | []]]];
    destruct Hc as [Hc | [Hc | [Hc | []]]]; try congruence;
    destruct Hs as [Hs | [Hs | [Hs | []]]]; try congruence.
  all: destruct Hab as [Hab Hba]; [congruence |].
  all: destruct Hac as [Hac Hca]; [congruence |].
  all: destruct Hbc as [Hbc Hcb]; [congruence |].
  all: destruct r as [|x [|y [|z [|]]]];
    [now elim Hr | | | | cbn in Hlen; lia].
  all: unfold build_records_from_dictrow, DictReader_row, named_record,
         column.
  all: unfold normalized in *.
  all: cbn.
  all: repeat (progress (rewrite ?Hab, ?Hba, ?Hac, ?Hca, ?Hbc, ?Hcb,
                                 ?Hk, ?Hc, ?Hs; cbn)).
  all: rewrite ?str_or_same.
  all: reflexivity.
Qed.
End NamedRows.

(** A line without cells has no named cell either. *)
Lemma named_record_nil (header : list string) :
  has_key_or_common (named_record header []) = false.
Proof.
  unfold has_key_or_common, named_record, column. cbn.
  now destruct (list_index "key" _) as [[|i]|],
               (list_index "common name" _) as [[|j]|].
Qed.

(** The header loop over rows that all give a record. *)
Lemma dict_loop_rows (hm : string * option (dict string))
    (header : list string) (G : row -> record) (rs : list row)
    (tail : option library_error) (acc : list record) :
  (forall r, In r rs ->
     build_records_from_dictrow (DictReader_row header r) hm = Ok (G r)) ->
  dict_loop hm (map (DictReader_row header) rs) tail acc
  = (_ <- check tail ;; Ok (acc ++ filter has_key_or_common (map G rs))%list).
Proof.
  revert acc. induction rs as [|r rs IH]; intros acc H; cbn [map dict_loop].
  - cbn. now rewrite app_nil_r.
  - rewrite (H r (or_introl eq_refl)). cbn [bind filter].
    rewrite no_key_no_common_spec.
    destruct (has_key_or_common (G r)); cbn [negb].
    + rewrite IH by (intros r' Hr'; apply H; now right).
      now rewrite <- app_assoc.
    + apply IH. intros r' Hr'. apply H. now right.
Qed.

Lemma filter_named_non_nil (header : list string) (data : list row) :
  filter has_key_or_common
         (map (named_record header) (filter (fun r => negb (is_nil r)) data))
  = header_records header data.
Proof.
  unfold header_records. induction data as [|r data IH]; [reflexivity |].
  destruct r as [|x r]; cbn [filter map is_nil negb].
  - now rewrite named_record_nil.
  - now rewrite IH.
Qed.

Lemma header_pass_named (f : csvfile) (header : list string)
    (data : list row) :
  from_start f = {| yielded := header :: data; raised := None |} ->
  three_columns header ->
  Forall (fun r => length r <= length header) data ->
  header_pass f = Ok (header_records header data).
Proof.
  intros Hs H3 Hlen. unfold header_pass, DictReader_fieldnames.
  rewrite Hs. cbn.
  rewrite (dict_loop_rows _ header (named_record header)).
  - cbn. now rewrite filter_named_non_nil.
  - intros r Hr. apply filter_In in Hr as [Hr Hn].
    apply build_named_record; [exact H3 | now destruct r |].
    clear Hn. revert r Hr. now apply Forall_forall.
Qed.

(** C1, as the program has it.  On a file whose first line is exactly the
    columns Key, Common Name and Scientific Name, in any order and letter
    case, and which is parsed with its header (the sniffer sees a header or
    fails), when no data row has more cells than the header and at least
    one data row has a key or a common name: the records are the trimmed
    cells of the three columns of the data rows, in row order, the rows
    without a key and a common name left out. *)
Theorem header_rows_in_order
    (fs : filesystem) (path : string) (f : csvfile)
    (header : list string) (data : list row) :
  fs path = Some f -> opens f -> header_assumed f = true ->
  from_start f = {| yielded := header :: data; raised := None |} ->
  three_columns header ->
  Forall (fun r => length r <= length header) data ->
  header_records header data <> [] ->
  convert_csv_to_records fs path = Ok (header_records header data).
Proof.
  intros Hf Ho Hh Hs H3 Hlen Hne.
  rewrite (convert_present fs path f Hf Ho), Hh.
  rewrite (header_pass_named f header data Hs H3 Hlen). cbn [bind].
  destruct (header_records header data); [now elim Hne | reflexivity].
Qed.

Lemma three_columns_species : three_columns species_header.
Proof. unfold three_columns. cbn. intuition. Qed.

Lemma header_rows_in_order_witness :
  convert_csv_to_records (one_file "in.csv" orchard_file) "in.csv"
  = Ok [maple; olive].
Proof.
  refine (header_rows_in_order
            (one_file "in.csv" orchard_file) "in.csv" orchard_file
            species_header (tl orchard_rows)
            eq_refl (conj eq_refl eq_refl) eq_refl eq_refl
            three_columns_species _ _).
  - repeat constructor.
  - discriminate.
Defined.

(** C1, as the specification words it, fails.  A file with the header line
    and no data row has no record to give, and the conversion returns the
    header itself as a record, whatever the sniffer says: header-keyed
    parsing finds nothing and the positional pass reads the first line as
    data.  On the example of the specification the header comes out as a
    first record when the sniffer sees no header. *)
Lemma header_line_comes_out_as_record :
  three_columns species_header
  /\ header_records species_header [] = []
  /\ convert_csv_to_records
       (one_file "in.csv" (header_only (Verdict true))) "in.csv"
     = Ok [header_as_record]
  /\ convert_csv_to_records
       (one_file "in.csv" (header_only SniffError)) "in.csv"
     = Ok [header_as_record]
  /\ convert_csv_to_records
       (one_file "in.csv" (header_only (Verdict false))) "in.csv"
     = Ok [header_as_record]
  /\ convert_csv_to_records
       (one_file "in.csv" (plain_file (Verdict false) species_rows)) "in.csv"
     = Ok [header_as_record; oak; maple].
Proof.
  split; [exact three_columns_species |]. repeat split; reflexivity.
Qed.

(** ** The JSON text and its tokens *)

Lemma lex_escape_char (c : ascii) (acc rest : string) :
  lex (InString acc) (escape_char c ++ rest) = lex (InString (snoc acc c)) rest.
Proof.
  destruct c as [[] [] [] [] [] [] [] []]; reflexivity.
Qed.

Lemma snoc_append acc c s : snoc acc c ++ s = acc ++ String c s.
Proof. unfold snoc. now rewrite append_assoc. Qed.

Lemma lex_escape (s acc rest : string) :
  lex (InString acc) (escape s ++ String "034" rest)
  = push (Str (acc ++ s)) (lex Between rest).
Proof.
  revert acc. induction s as [|c s IH]; intros acc.
  - cbn. now rewrite append_nil_r.
  - cbn [escape]. rewrite append_assoc, lex_escape_char, IH.
    now rewrite snoc_append.
Qed.

Lemma lex_string (s rest : string) :
  lex Between (encode_basestring s ++ rest) = push (Str s) (lex Between rest).
Proof.
  unfold encode_basestring. rewrite !append_assoc. cbn.
  apply (lex_escape s "" rest).
Qed.

Lemma iterencode_record_pretty (r : record) :
  iterencode (Some "  ") "," ": " (json_of_record r) 1 = pretty_record r.
Proof.
  unfold json_of_record, record_items, pretty_record, pretty_member.
  cbn -[append escape encode_basestring].
  rewrite !append_assoc. reflexivity.
Qed.


Lemma dumps_pretty (records : list record) :
  dumps (json_of_records records) (Some 2) None = pretty_records records.
Proof.
  destruct records as [|r rs]; [reflexivity |].
  unfold dumps, json_of_records, pretty_records.
  cbn [option_map fst snd map iterencode repeat_string].
  change (" " ++ " " ++ "") with "  ".
  rewrite iterencode_record_pretty.
  match goal with
  | |- context [?F (map json_of_record rs)] =>
      assert (H : forall l, F (map json_of_record l) = pretty_more l)
  end.
  { induction l as [|x l IH]; [reflexivity |].
    cbn [map pretty_more]. rewrite iterencode_record_pretty, IH.
    reflexivity. }
  rewrite H. reflexivity.
Qed.

Lemma iterencode_record_compact (r : record) :
  iterencode None "," ":" (json_of_record r) 1
  = render_all (tokens_of_record r).
Proof.
  unfold json_of_record, record_items, tokens_of_record.
  cbn -[append escape encode_basestring].
  rewrite !append_assoc. reflexivity.
Qed.

Lemma render_all_app (ts us : list token) :
  render_all (ts ++ us) = render_all ts ++ render_all us.
Proof.
  induction ts as [|t ts IH]; cbn [render_all app]; [reflexivity |].
  now rewrite IH, append_assoc.
Qed.

Lemma dumps_compact (records : list record) :
  dumps (json_of_records records) None (Some (",", ":"))
  = render_all (tokens_of_records records).
Proof.
  destruct records as [|r rs]; [reflexivity |].
  unfold dumps, json_of_records, tokens_of_records.
  cbn [option_map fst snd map iterencode].
  rewrite iterencode_record_compact.
  match goal with
  | |- context [?F (map json_of_record rs)] =>
      assert (H : forall l, F (map json_of_record l)
                            = render_all (tokens_of_more l))
  end.
  { induction l as [|x l IH]; [reflexivity |].
    cbn [map tokens_of_more]. rewrite iterencode_record_compact, IH.
    rewrite render_all_app. reflexivity. }
  rewrite H. rewrite !render_all_app. reflexivity.
Qed.

Lemma push_app (t : token) (ts : list token) (o : option (list token)) :
  push t (option_map (app ts) o) = option_map (app (t :: ts)) o.
Proof. now destruct o. Qed.

Lemma lex_render (t : token) (rest : string) :
  lex Between (render t ++ rest) = push t (lex Between rest).
Proof.
  destruct t; try reflexivity. apply lex_string.
Qed.

Lemma lex_render_all (ts : list token) (rest : string) :
  lex Between (render_all ts ++ rest) = option_map (app ts) (lex Between rest).
Proof.
  induction ts as [|t ts IH]; cbn [render_all].
  - cbn. now destruct (lex Between rest).
  - now rewrite append_assoc, lex_render, IH, push_app.
Qed.

Lemma lex_pretty_member (k v rest : string) :
  lex Between (pretty_member k v ++ rest)
  = option_map (app [Str k; Colon; Str v]) (lex Between rest).
Proof.
  unfold pretty_member. rewrite !append_assoc.
  change (lex Between ("    " ++ ?x)) with (lex Between x).
  rewrite lex_string.
  change (lex Between (": " ++ ?x)) with (push Colon (lex Between x)).
  rewrite lex_string. now destruct (lex Between rest).
Qed.

Lemma lex_pretty_record (r : record) (rest : string) :
  lex Between (pretty_record r ++ rest)
  = option_map (app (tokens_of_record r)) (lex Between rest).
Proof.
  unfold pretty_record. rewrite !append_assoc.
  change (lex Between ("{" ++ newline ++ ?x))
    with (push LBrace (lex Between x)).
  rewrite lex_pretty_member.
  change (lex Between ("," ++ newline ++ ?x))
    with (push Comma (lex Between x)).
  rewrite lex_pretty_member.
  change (lex Between ("," ++ newline ++ ?x))
    with (push Comma (lex Between x)).
  rewrite lex_pretty_member.
  change (lex Between (newline ++ "  }" ++ rest))
    with (push RBrace (lex Between rest)).
  now destruct (lex Between rest).
Qed.

Lemma lex_pretty_more (rs : list record) (rest : string) :
  lex Between (pretty_more rs ++ rest)
  = option_map (app (tokens_of_more rs)) (lex Between rest).
Proof.
  induction rs as [|r rs IH]; cbn [pretty_more tokens_of_more].
  - cbn. now destruct (lex Between rest).
  - rewrite !append_assoc.
    change (lex Between ("," ++ newline ++ "  " ++ ?x))
      with (push Comma (lex Between x)).
    rewrite lex_pretty_record, IH.
    now destruct (lex Between rest).
Qed.

Lemma lex_pretty_records (records : list record) :
  lex Between (pretty_records records) = Some (tokens_of_records records).
Proof.
  destruct records as [|r rs]; [reflexivity |].
  unfold pretty_records, tokens_of_records.
  change (lex Between ("[" ++ newline ++ "  " ++ ?x))
    with (push LBracket (lex Between x)).
  rewrite lex_pretty_record, lex_pretty_more.
  reflexivity.
Qed.

Lemma lex_compact_records (records : list record) :
  lex Between (render_all (tokens_of_records records))
  = Some (tokens_of_records records).
Proof.
  rewrite <- (append_nil_r (render_all _)), lex_render_all. cbn.
  now rewrite app_nil_r.
Qed.

Lemma parse_members_record (r : record) (ts : list token) :
  parse_object (tokens_of_record r ++ ts) = Some (record_items r, ts).
Proof. reflexivity. Qed.

Lemma parse_elements_records (r : record) (rs : list record) (fuel : nat) :
  length rs < fuel ->
  parse_elements fuel
    (tokens_of_record r ++ tokens_of_more rs ++ [RBracket])
  = Some (map record_items (r :: rs)).
Proof.
  revert r fuel. induction rs as [|r' rs IH]; intros r fuel Hf.
  - destruct fuel; [inversion Hf | reflexivity].
  - destruct fuel; [inversion Hf |].
    cbn [parse_elements]. rewrite parse_members_record.
    cbn [tokens_of_more app]. rewrite <- app_assoc.
    rewrite IH by (cbn in Hf; lia). reflexivity.
Qed.

Lemma tokens_of_more_length (rs : list record) :
  length rs <= length (tokens_of_more rs).
Proof.
  induction rs as [|r rs IH]; cbn; [lia |]. lia.
Qed.

Lemma parse_array_records (records : list record) :
  parse_array (tokens_of_records records) = Some (map record_items records).
Proof.
  destruct records as [|r rs]; [reflexivity |].
  unfold tokens_of_records.
  change (parse_array ((LBracket :: tokens_of_record r) ++ ?x))
    with (parse_elements (length (tokens_of_record r ++ x))
                         (tokens_of_record r ++ x)).
  apply parse_elements_records.
  rewrite !length_app. pose proof (tokens_of_more_length rs). cbn. lia.
Qed.

Lemma records_of_objects_items (records : list record) :
  records_of_objects (map record_items records) = Some records.
Proof.
  induction records as [|[k c s] rs IH]; [reflexivity |].
  cbn [map records_of_objects]. rewrite IH. reflexivity.
Qed.

Lemma loads_of_tokens (text : string) (records : list record) :
  lex Between text = Some (tokens_of_records records) ->
  loads text = Some (map record_items records)
  /\ loads_records text = Some records.
Proof.
  intros H. unfold loads_records, loads. rewrite H, parse_array_records.
  split; [reflexivity | apply records_of_objects_items].
Qed.

(** The characters [py_encode_basestring] leaves as they are: all from
    U+0020 on but the quote and the backslash. *)
Lemma escape_char_literal (c : ascii) :
  escape_char c = String c ""
  <-> (32 <= nat_of_ascii c /\ nat_of_ascii c <> 34 /\ nat_of_ascii c <> 92).
Proof.
  destruct c as [[] [] [] [] [] [] [] []]; cbn; split;
    try (intros _; repeat split; lia);
    try (intros _; reflexivity);
    try discriminate;
    intros (H1 & H2 & H3); lia.
Qed.

(** ** C5: the written text reads back as the records *)

(** C5.  The text [write_js] writes is the variable, the equals sign, a
    JSON text and [;] with a line feed, and that JSON text reads back as
    exactly the records written, in their order and with their values, the
    members of each in the order key, common, scientific.  The compact and
    the pretty text of the same records have the same tokens and so the
    same value, and the two files differ. *)
Theorem write_js_round_trip
    (records : list record) (out_path var_name : string) :
  let compact_json := dumps (json_of_records records) None (Some (",", ":")) in
  let pretty_json := dumps (json_of_records records) (Some 2) None in
  snd (write_js records out_path var_name true)
  = var_name ++ "=" ++ compact_json ++ ";" ++ newline
  /\ snd (write_js records out_path var_name false)
     = var_name ++ " = " ++ pretty_json ++ ";" ++ newline
  /\ loads_records compact_json = Some records
  /\ loads_records pretty_json = Some records
  /\ loads compact_json = Some (map record_items records)
  /\ loads pretty_json = loads compact_json
  /\ lex Between pretty_json = lex Between compact_json
  /\ snd (write_js records out_path var_name true)
     <> snd (write_js records out_path var_name false).
Proof.
  intros compact_json pretty_json.
  assert (Hc : lex Between compact_json = Some (tokens_of_records records)).
  { unfold compact_json. rewrite dumps_compact. apply lex_compact_records. }
  assert (Hp : lex Between pretty_json = Some (tokens_of_records records)).
  { unfold pretty_json. rewrite dumps_pretty. apply lex_pretty_records. }
  destruct (loads_of_tokens _ _ Hc) as [Hc1 Hc2].
  destruct (loads_of_tokens _ _ Hp) as [Hp1 Hp2].
  repeat split; try assumption; try congruence.
  cbn [write_js snd]. fold compact_json pretty_json.
  intros H. apply append_inj_l in H. discriminate.
Qed.

(** ** C6: the statement written *)

Lemma written_char_escape (c : ascii) : escape_char c = written_char c.
Proof. destruct c as [[] [] [] [] [] [] [] []]; reflexivity. Qed.

(** The encoder of the program writes string literals as the grammar has
    them. *)
Lemma encode_basestring_literal (s : string) :
  encode_basestring s = string_literal s.
Proof.
  unfold encode_basestring, string_literal. cbn. f_equal. f_equal.
  induction s as [|c s IH]; [reflexivity |].
  cbn [escape written_chars]. now rewrite IH, written_char_escape.
Qed.

Lemma written_char_plain (c : ascii) :
  plain_char c = true -> written_char c = String c "".
Proof.
  destruct c as [[] [] [] [] [] [] [] []]; cbn; intros H;
    try reflexivity; discriminate.
Qed.

Lemma string_literal_plain (s : string) :
  all_chars plain_char s = true -> string_literal s = quote ++ s ++ quote.
Proof.
  intros H. unfold string_literal. cbn. f_equal. f_equal.
  induction s as [|c s IH]; [reflexivity |]. cbn in H.
  apply andb_true_iff in H as [Hc Hs]. cbn [written_chars].
  now rewrite (written_char_plain c Hc), (IH Hs).
Qed.

Lemma plain_char_non_ascii (c : ascii) :
  128 <= nat_of_ascii c -> plain_char c = true.
Proof.
  destruct c as [[] [] [] [] [] [] [] []]; cbn; intros H;
    try reflexivity; lia.
Qed.

Lemma lex_written_chars (s acc rest : string) :
  lex (InString acc) (written_chars s ++ String "034" rest)
  = push (Str (acc ++ s)) (lex Between rest).
Proof.
  rewrite <- (lex_escape s acc rest). f_equal. f_equal.
  induction s as [|c s IH]; [reflexivity |].
  cbn [escape written_chars]. now rewrite IH, written_char_escape.
Qed.

Lemma pretty_layout_records (records : list record) :
  pretty_records records = pretty_layout records.
Proof.
  assert (Ho : forall r, "  " ++ pretty_record r = pretty_object r).
  { intros r. unfold pretty_record, pretty_object, pretty_member.
    rewrite !encode_basestring_literal, !append_assoc. reflexivity. }
  assert (Hm : forall rs, pretty_more rs = pretty_objects rs).
  { induction rs as [|r rs IH]; [reflexivity |].
    cbn [pretty_more pretty_objects]. rewrite <- Ho, IH.
    now rewrite !append_assoc. }
  destruct records as [|r rs]; [reflexivity |].
  unfold pretty_records, pretty_layout. rewrite <- Ho, Hm.
  now rewrite !append_assoc.
Qed.

Lemma render_record (r : record) :
  render_all (tokens_of_record r) = compact_object r.
Proof.
  unfold tokens_of_record, compact_object. cbn [render_all render].
  rewrite !encode_basestring_literal. reflexivity.
Qed.

Lemma dumps_compact_layout (records : list record) :
  dumps (json_of_records records) None (Some (",", ":"))
  = compact_layout records.
Proof.
  destruct records as [|r rs]; [reflexivity |].
  unfold dumps, json_of_records, compact_layout.
  cbn [option_map fst snd map iterencode].
  rewrite iterencode_record_compact, render_record.
  match goal with
  | |- context [?F (map json_of_record rs)] =>
      assert (H : forall l, F (map json_of_record l) = compact_more l)
  end.
  { induction l as [|x l IH]; [reflexivity |].
    cbn [map compact_more].
    rewrite iterencode_record_compact, render_record, IH.
    reflexivity. }
  rewrite H. reflexivity.
Qed.

(** C6.  [write_js] writes one assignment.  In pretty mode the text is the
    variable, [ = ], the JSON text and [;] with a line feed, the JSON text
    laid out with two spaces for each level: the objects two spaces in, one
    member a line four spaces in, [: ] after a member's name.  In compact
    mode the text is the variable, [=], the JSON text and [;] with a line
    feed, the JSON text being its tokens one after the other with nothing
    between them.  Every field is written as the string literal of the JSON
    grammar, which reads back as the field: a field of characters from
    U+0020 on without quote and backslash is written as it is between two
    quotes, and every character that is not ASCII is such a character. *)
Theorem write_js_statement
    (records : list record) (out_path var_name : string) :
  snd (write_js records out_path var_name false)
  = var_name ++ " = " ++ pretty_layout records ++ ";" ++ newline
  /\ snd (write_js records out_path var_name true)
     = var_name ++ "=" ++ compact_layout records ++ ";" ++ newline
  /\ (forall s, all_chars plain_char s = true ->
                string_literal s = quote ++ s ++ quote)
  /\ (forall c, 128 <= nat_of_ascii c -> plain_char c = true)
  /\ (forall s, lex Between (string_literal s) = Some [Str s]).
Proof.
  split; [| split; [| split; [| split]]].
  - cbn [write_js snd]. now rewrite dumps_pretty, pretty_layout_records.
  - cbn [write_js snd]. now rewrite dumps_compact_layout.
  - exact string_literal_plain.
  - exact plain_char_non_ascii.
  - intros s. unfold string_literal.
    change (lex Between (String "034" ?x)) with (lex (InString "") x).
    now rewrite (lex_written_chars s "" "").
Qed.

(** ** The examples of the specification *)

(** Three unlabeled columns [a,b,c] give one record, whatever the sniffer
    says. *)
Example unlabeled_columns (answer : sniffed) :
  convert_csv_to_records (one_file "in.csv" (plain_file answer abc_rows))
                         "in.csv"
  = Ok [{| key := "a"; common := "b"; scientific := "c" |}].
Proof. now destruct answer as [[|]|]. Qed.

(** An empty file: status 0, the warning, and the empty array in the output
    file. *)
Example empty_file_run (answer : sniffed) :
  main (one_file "in.csv" (plain_file answer [])) (default_args "in.csv")
  = {| exit_code := 0;
       stderr := ["Warning: no records parsed from CSV. Output will still be created as an empty array."];
       stdout := ["Wrote species-data.js with 0 records."];
       written := Some ("species-data.js",
                        "window.__speciesRecords = [];" ++ newline) |}.
Proof. now destruct answer as [[|]|]. Qed.

(** A reader that fails after its first line: status 2 and the library's
    message, nothing written. *)
Example broken_file_run (answer : sniffed) :
  main (one_file "in.csv" (broken_file answer)) (default_args "in.csv")
  = {| exit_code := 2;
       stderr := ["Error reading CSV: line contains NUL"];
       stdout := [];
       written := None |}.
Proof. now destruct answer as [[|]|]. Qed.

(** A missing file. *)
Example missing_file_run :
  main (one_file "in.csv" orchard_file) (default_args "other.csv")
  = {| exit_code := 2;
       stderr := ["Error: file not found: other.csv"];
       stdout := [];
       written := None |}.
Proof. reflexivity. Qed.

(** A character outside ASCII, U+00E9, goes into the JSON text as it is; a
    line feed inside a cell is escaped. *)
Example escapes :
  encode_basestring (String "233" "t" ++ newline ++ "x")
  = quote ++ String "233" "t\nx" ++ quote.
Proof. reflexivity. Qed.

(** * Further properties of the program *)

Import MoreSamples.

(** ** infer_fields *)

Lemma list_index_none (x : string) (l : list string) :
  list_index x l = None <-> ~ In x l.
Proof.
  induction l as [|y l IH]; cbn; [tauto |].
  destruct (String.eqb y x) eqn:E.
  - apply String.eqb_eq in E. split; [discriminate | intros H; elim H; auto].
  - apply String.eqb_neq in E.
    destruct (list_index x l) as [i|]; cbn.
    + split; [discriminate |]. intros H. exfalso. apply H. right.
      destruct (in_dec string_dec x l) as [Hin | Hn]; [exact Hin |].
      apply IH in Hn. discriminate.
    + split; [| reflexivity]. intros _ [H | H]; [now apply E |].
      now apply (proj1 IH).
Qed.

(** [low.index(x)] is the first position of [x]. *)
Lemma list_index_some (x : string) (l : list string) (i : nat) :
  list_index x l = Some i ->
  i < length l /\ nth i l "" = x /\ ~ In x (firstn i l).
Proof.
  revert i. induction l as [|y l IH]; intros i; cbn; [discriminate |].
  destruct (String.eqb y x) eqn:E.
  - intros [= <-]. apply String.eqb_eq in E. cbn. repeat split; [lia | auto | tauto].
  - apply String.eqb_neq in E.
    destruct (list_index x l) as [j|]; cbn; [| discriminate].
    intros [= <-]. destruct (IH j eq_refl) as (H1 & H2 & H3).
    cbn. repeat split; [lia | exact H2 |].
    intros [H | H]; [now apply E | now apply H3].
Qed.

(** X1.  [infer_fields] answers ['header'], with its fixed mapping, exactly
    when some field name is [key] and some field name is [common name]
    after trimming and lower-casing; in every other case, also without
    field names and whatever the number of columns, it answers
    ['fallback'] without a mapping.  A scientific name column plays no
    part. *)
Theorem infer_fields_header_iff (fieldnames : option (list string)) :
  (infer_fields fieldnames = ("header", Some header_mapping)
   \/ infer_fields fieldnames = ("fallback", None))
  /\ (infer_fields fieldnames = ("header", Some header_mapping)
      <-> In "key" (low_names fieldnames)
          /\ In "common name" (low_names fieldnames)).
Proof.
  unfold infer_fields, low_names, normalized.
  set (low := map _ _).
  destruct (list_index "key" low) as [i|] eqn:Ek.
  - destruct (list_index "common name" low) as [j|] eqn:Ec.
    + split; [now left |]. split; [| reflexivity]. intros _.
      split.
      * destruct (in_dec string_dec "key" low) as [H | H]; [exact H |].
        apply list_index_none in H. congruence.
      * destruct (in_dec string_dec "common name" low) as [H | H];
          [exact H |].
        apply list_index_none in H. congruence.
    + split; [now right |]. split; [discriminate |]. intros [_ H].
      apply list_index_none in Ec. now elim Ec.
  - split; [now right |]. split; [discriminate |]. intros [H _].
    apply list_index_none in Ek. now elim Ek.
Qed.

(** X2.  The inner [idx_of] gives [-1] when none of the names is among the
    field names, and otherwise the first position, within the bounds of the
    list, of the first name that is. *)
Theorem idx_of_first_present (low names : list string) :
  (idx_of low names = (-1)%Z /\ forall n, In n names -> ~ In n low)
  \/ (exists i n before after,
        idx_of low names = Z.of_nat i
        /\ names = (before ++ n :: after)%list
        /\ (forall m, In m before -> ~ In m low)
        /\ i < length low /\ nth i low "" = n
        /\ ~ In n (firstn i low)).
Proof.
  induction names as [|n names IH]; cbn.
  - left. split; [reflexivity | intros n []].
  - destruct (list_index n low) as [i|] eqn:E.
    + right. exists i, n, [], names.
      destruct (list_index_some n low i E) as (H1 & H2 & H3).
      split; [reflexivity |]. split; [reflexivity |].
      split; [intros m [] |]. now repeat split.
    + apply list_index_none in E. destruct IH as [[H0 Hall] | H].
      * left. split; [exact H0 |]. intros m [<- | Hm]; auto.
      * right. destruct H as (i & m & before & after & H0 & -> & Hb & Hrest).
        exists i, m, (n :: before), after.
        split; [exact H0 |]. split; [reflexivity |].
        split; [| exact Hrest]. intros k [<- | Hk]; auto.
Qed.

(** ** Fields without white space around them *)

Lemma head_space_strip (s : string) : head_space (strip s) = false.
Proof.
  unfold strip. destruct (lstrip_head s) as [E | (c & t & E & Hc)]; rewrite E.
  - reflexivity.
  - destruct (rstrip_head c t Hc) as (u & ->). exact Hc.
Qed.

Lemma last_space_rstrip (s : string) : last_space (rstrip s) = false.
Proof.
  induction s as [|c s IH]; [reflexivity |]. cbn [rstrip].
  destruct (rstrip s) as [|d t].
  - destruct (is_space c) eqn:Ec; [reflexivity | exact Ec].
  - exact IH.
Qed.

Lemma trimmed_strip (s : string) : trimmed (strip s).
Proof.
  split; [apply head_space_strip | apply last_space_rstrip].
Qed.

Lemma trimmed_empty : trimmed "".
Proof. now split. Qed.

Lemma trimmed_cell_text (v : cell) : trimmed (cell_text v).
Proof. apply trimmed_strip. Qed.

Lemma trimmed_g (lookup : dict (string * cell)) (name : string) :
  trimmed (g lookup name).
Proof.
  unfold g. destruct (dict_get name lookup); [apply trimmed_cell_text |].
  destruct (find _ lookup); [apply trimmed_cell_text | apply trimmed_empty].
Qed.

Lemma trimmed_str_or (a b : string) :
  trimmed a -> trimmed b -> trimmed (str_or a b).
Proof. now destruct a. Qed.

Lemma trimmed_build_records_from_dictrow (row : dictrow)
    (hm : string * option (dict string)) (rec : record) :
  build_records_from_dictrow row hm = Ok rec -> trimmed_record rec.
Proof.
  unfold build_records_from_dictrow. destruct (restkey row); [discriminate |].
  intros [= <-]. repeat split; cbn;
    try apply trimmed_str_or; try apply trimmed_g;
    apply (proj1 (trimmed_g _ _)) || apply (proj2 (trimmed_g _ _)).
Qed.

Lemma trimmed_first_three (r : row) : trimmed_record (first_three r).
Proof. repeat split; apply trimmed_strip. Qed.

(** What holds of every record a row can give holds of every record
    returned. *)
Lemma dict_loop_forall (P : record -> Prop)
    (hm : string * option (dict string)) (rows : list dictrow)
    (tail : option library_error) (acc records : list record) :
  (forall row rec, build_records_from_dictrow row hm = Ok rec -> P rec) ->
  Forall P acc ->
  dict_loop hm rows tail acc = Ok records -> Forall P records.
Proof.
  intros Hb. revert acc. induction rows as [|row rows IH]; intros acc Hacc;
    cbn [dict_loop].
  - destruct tail; cbn; [discriminate |]. now intros [= <-].
  - destruct (build_records_from_dictrow row hm) as [rec|e] eqn:E;
      cbn [bind]; [| discriminate].
    destruct (no_key_no_common rec); apply IH; [exact Hacc |].
    apply Forall_app. split; [exact Hacc |]. constructor; [| constructor].
    exact (Hb row rec E).
Qed.

Lemma convert_forall (P : record -> Prop)
    (fs : filesystem) (path : string) (records : list record) :
  (forall row hm rec, build_records_from_dictrow row hm = Ok rec -> P rec) ->
  (forall r, P (first_three r)) ->
  convert_csv_to_records fs path = Ok records -> Forall P records.
Proof.
  intros Hb Hf H. destruct (fs path) as [f|] eqn:Ef.
  - destruct (opens_dec f) as [Ho | Hn].
    + rewrite (convert_present fs path f Ef Ho) in H.
      assert (Hpos : forall rs, positional_pass f = Ok rs -> Forall P rs).
      { intros rs. rewrite positional_pass_spec.
        destruct (raised (from_start f)); cbn; [discriminate |].
        intros [= <-]. unfold positional_records.
        apply Forall_forall. intros r Hr. apply filter_In in Hr as [Hr _].
        apply in_map_iff in Hr as (x & <- & _). apply Hf. }
      destruct (header_assumed f); [| now apply Hpos].
      destruct (header_pass f) as [rs|e] eqn:Hp; cbn [bind] in H;
        [| discriminate].
      destruct rs as [|r rs]; cbn in H; [now apply Hpos |].
      injection H as <-. revert Hp. unfold header_pass, DictReader_fieldnames.
      destruct (yielded (from_start f)).
      * destruct (raised (from_start f)); cbn; [discriminate |].
        intros [= <-].
      * cbn. apply dict_loop_forall; [intros row rec; apply Hb | constructor].
    + destruct (convert_unreadable fs path f Ef Hn) as [e He].
      rewrite He in H. discriminate.
  - rewrite (convert_missing fs path Ef) in H. discriminate.
Qed.

(** X3.  Every field of every record the conversion returns, in either
    mode, is free of white space at both ends. *)
Theorem records_are_trimmed
    (fs : filesystem) (path : string) (records : list record) :
  convert_csv_to_records fs path = Ok records ->
  Forall trimmed_record records.
Proof.
  apply convert_forall.
  - intros row hm rec. apply trimmed_build_records_from_dictrow.
  - apply trimmed_first_three.
Qed.

Lemma records_are_trimmed_witness :
  Forall trimmed_record [Samples.oak].
Proof.
  exact (records_are_trimmed (one_file "in.csv" keyed_file) "in.csv"
           [Samples.oak] eq_refl).
Defined.

(** ** Never more records than lines *)

Lemma dict_loop_length (hm : string * option (dict string))
    (rows : list dictrow) (tail : option library_error)
    (acc records : list record) :
  dict_loop hm rows tail acc = Ok records ->
  length records <= length acc + length rows.
Proof.
  revert acc. induction rows as [|row rows IH]; intros acc; cbn [dict_loop].
  - destruct tail; cbn; [discriminate |]. intros [= <-]. cbn. lia.
  - destruct (build_records_from_dictrow row hm) as [rec|e]; cbn [bind];
      [| discriminate].
    destruct (no_key_no_common rec); intros H; apply IH in H; cbn.
    + lia.
    + rewrite length_app in H. cbn in H. lia.
Qed.

Lemma DictReader_rows_length (fieldnames : option (list string))
    (lines : list row) :
  length (DictReader_rows fieldnames lines) <= length lines.
Proof.
  unfold DictReader_rows. destruct fieldnames; cbn; [| lia].
  rewrite length_map. apply filter_length_le.
Qed.

(** X4.  The conversion returns at most one record for each line the
    reader yields; when the records come from the header-keyed pass, at
    most one for each line after the first. *)
Theorem no_more_records_than_lines
    (fs : filesystem) (path : string) (f : csvfile) (records : list record) :
  fs path = Some f ->
  convert_csv_to_records fs path = Ok records ->
  length records <= length (yielded (from_start f))
  /\ (header_pass f = Ok records -> records <> [] ->
      length records < length (yielded (from_start f))).
Proof.
  intros Ef H.
  assert (Hhead : forall rs, header_pass f = Ok rs ->
            rs = [] \/ length rs < length (yielded (from_start f))).
  { intros rs. unfold header_pass, DictReader_fieldnames.
    destruct (yielded (from_start f)) as [|h rest].
    - destruct (raised (from_start f)); cbn; [discriminate |].
      intros [= <-]. now left.
    - cbn. intros Hl. apply dict_loop_length in Hl.
      pose proof (DictReader_rows_length (Some h) rest). cbn in *. right. lia. }
  split.
  - destruct (opens_dec f) as [Ho | Hn].
    + rewrite (convert_present fs path f Ef Ho) in H.
      assert (Hpos : forall rs, positional_pass f = Ok rs ->
                length rs <= length (yielded (from_start f))).
      { intros rs. rewrite positional_pass_spec.
        destruct (raised (from_start f)); cbn; [discriminate |].
        intros [= <-]. unfold positional_records.
        rewrite <- (length_map first_three). apply filter_length_le. }
      destruct (header_assumed f); [| now apply Hpos].
      destruct (header_pass f) as [rs|e] eqn:Hp; cbn [bind] in H;
        [| discriminate].
      destruct rs as [|r rs]; cbn in H; [now apply Hpos |].
      injection H as <-. destruct (Hhead _ eq_refl); [discriminate | lia].
    + destruct (convert_unreadable fs path f Ef Hn) as [e He].
      rewrite He in H. discriminate.
  - intros Hp Hne. destruct (Hhead _ Hp); [now elim Hne | assumption].
Qed.

Lemma no_more_records_than_lines_witness :
  length [Samples.maple; Samples.olive] <= length Samples.orchard_rows
  /\ (header_pass Samples.orchard_file = Ok [Samples.maple; Samples.olive] ->
      [Samples.maple; Samples.olive] <> [] ->
      length [Samples.maple; Samples.olive] < length Samples.orchard_rows).
Proof.
  exact (no_more_records_than_lines
           (one_file "in.csv" Samples.orchard_file) "in.csv"
           Samples.orchard_file [Samples.maple; Samples.olive]
           eq_refl eq_refl).
Defined.

(** ** The header-keyed pass under any header *)

(** A row without cells under [None] gives the record of its fields by
    name. *)
Lemma build_by_name (row : dictrow) (hm : string * option (dict string)) :
  restkey row = None ->
  build_records_from_dictrow row hm = Ok (record_by_name (fields row)).
Proof.
  intros Hr. unfold build_records_from_dictrow, record_by_name. rewrite Hr.
  fold (lookup_of (fields row)).
  now rewrite !g_field_value, !str_or_first_non_empty.
Qed.

Lemma DictReader_row_fits (header : list string) (r : row) :
  length r <= length header -> restkey (DictReader_row header r) = None.
Proof.
  intros H. unfold DictReader_row.
  now apply Nat.ltb_ge in H as ->.
Qed.

Lemma surplus_dec (header : list string) (data : list row) :
  Exists (fun r => length header < length r) data
  \/ Forall (fun r => length r <= length header) data.
Proof.
  induction data as [|r data [IH | IH]].
  - right. constructor.
  - left. now right.
  - destruct (Nat.lt_ge_cases (length header) (length r)) as [H | H].
    + left. now left.
    + right. now constructor.
Qed.

(** The header-keyed pass over the lines after a header: it stops with
    [AttributeError] when one of them is longer than the header, and
    otherwise reads every line that is not blank by name. *)
Lemma header_pass_cases (f : csvfile) (header : list string)
    (data : list row) :
  yielded (from_start f) = header :: data ->
  (Exists (fun r => length header < length r) data
   /\ header_pass f = Raise AttributeError)
  \/ (Forall (fun r => length r <= length header) data
      /\ header_pass f
         = (_ <- check (raised (from_start f)) ;;
            Ok (keyed_records header data))).
Proof.
  intros Hy. unfold header_pass, DictReader_fieldnames. rewrite Hy. cbn.
  destruct (surplus_dec header data) as [He | Hall]; [left | right];
    (split; [assumption |]).
  - apply dict_loop_surplus. apply Exists_exists in He as (r & Hr & Hlen).
    apply Exists_exists. exists (DictReader_row header r). split.
    + apply in_map, filter_In. split; [exact Hr |].
      destruct r; [inversion Hlen | reflexivity].
    + rewrite (DictReader_row_surplus header r Hlen). discriminate.
  - rewrite (dict_loop_rows _ header
               (fun r => record_by_name (fields (DictReader_row header r)))).
    + reflexivity.
    + intros r Hr. apply filter_In in Hr as [Hr _]. apply build_by_name.
      apply DictReader_row_fits. revert r Hr. now apply Forall_forall.
Qed.

(** The header-keyed pass over a reader that yields nothing. *)
Lemma header_pass_no_line (f : csvfile) :
  yielded (from_start f) = [] ->
  header_pass f = (_ <- check (raised (from_start f)) ;; Ok []).
Proof.
  intros Hy. unfold header_pass, DictReader_fieldnames. rewrite Hy.
  now destruct (raised (from_start f)).
Qed.

Lemma surplus_line_iff (f : csvfile) (header : list string)
    (data : list row) :
  yielded (from_start f) = header :: data ->
  surplus_line f <-> Exists (fun r => length header < length r) data.
Proof.
  intros Hy. unfold surplus_line. split.
  - intros (h & d & r & Hy' & Hr & Hlen). rewrite Hy in Hy'.
    injection Hy' as <- <-. apply Exists_exists. now exists r.
  - intros He. apply Exists_exists in He as (r & Hr & Hlen).
    now exists header, data, r.
Qed.

Lemma not_both (header : list string) (data : list row) :
  Exists (fun r => length header < length r) data ->
  Forall (fun r => length r <= length header) data -> False.
Proof.
  intros He Hall. apply Exists_exists in He as (r & Hr & Hlen).
  rewrite Forall_forall in Hall. specialize (Hall r Hr). lia.
Qed.

(** X5.  The conversion raises [AttributeError] in exactly one situation:
    the file opens, the sniffer's answer counts as a header, and some line
    after the first has more cells than the first.  Nothing else makes it
    raise that exception; positional parsing never does. *)
Theorem attribute_error_iff_surplus (fs : filesystem) (path : string) :
  convert_csv_to_records fs path = Raise AttributeError
  <-> exists f, fs path = Some f /\ opens f /\ header_assumed f = true
                /\ surplus_line f.
Proof.
  split.
  - intros H. destruct (fs path) as [f|] eqn:Ef.
    + exists f. split; [reflexivity |].
      destruct (opens_dec f) as [Ho | Hn].
      * split; [exact Ho |].
        rewrite (convert_present fs path f Ef Ho) in H.
        assert (Hpos : positional_pass f <> Raise AttributeError).
        { rewrite positional_pass_spec.
          destruct (raised (from_start f)); cbn; discriminate. }
        destruct (header_assumed f); [| now elim Hpos].
        split; [reflexivity |].
        destruct (yielded (from_start f)) as [|h data] eqn:Hy.
        -- rewrite (header_pass_no_line f Hy) in H.
           destruct (raised (from_start f)); cbn in H; [discriminate |].
           now elim Hpos.
        -- destruct (header_pass_cases f h data Hy) as [[He _] | [_ Hp]].
           ++ now apply (surplus_line_iff f h data Hy).
           ++ rewrite Hp in H.
              destruct (raised (from_start f)); cbn in H; [discriminate |].
              destruct (keyed_records h data); cbn in H;
                [now elim Hpos | discriminate].
      * destruct (convert_unreadable fs path f Ef Hn) as [e He].
        rewrite He in H. discriminate.
    + rewrite (convert_missing fs path Ef) in H. discriminate.
  - intros (f & Ef & Ho & Hh & (h & data & r & Hy & Hr & Hlen)).
    rewrite (convert_present fs path f Ef Ho), Hh.
    destruct (header_pass_cases f h data Hy) as [[_ ->] | [Hall _]];
      [reflexivity |].
    exfalso. apply (not_both h data); [| exact Hall].
    apply Exists_exists. now exists r.
Qed.

(** X6.  The conversion returns records exactly when the file exists, opens,
    is read to its end without an exception of the reader and, if the
    sniffer's answer counts as a header, has no line after the first with
    more cells than the first. *)
Theorem returns_iff_well_formed (fs : filesystem) (path : string) :
  (exists records, convert_csv_to_records fs path = Ok records)
  <-> exists f, fs path = Some f /\ opens f
                /\ raised (from_start f) = None
                /\ (header_assumed f = true -> ~ surplus_line f).
Proof.
  split.
  - intros [records H]. destruct (fs path) as [f|] eqn:Ef.
    + exists f. split; [reflexivity |].
      destruct (opens_dec f) as [Ho | Hn].
      * split; [exact Ho |].
        rewrite (convert_present fs path f Ef Ho) in H.
        assert (Hpos : forall rs, positional_pass f = Ok rs ->
                  raised (from_start f) = None).
        { intros rs. rewrite positional_pass_spec.
          destruct (raised (from_start f)); cbn; [discriminate | reflexivity]. }
        destruct (header_assumed f).
        -- destruct (header_pass f) as [rs|e] eqn:Hp; cbn [bind] in H;
             [| discriminate].
           split; [now apply header_pass_ok in Hp |].
           intros _ (h & data & r & Hy & Hr & Hlen).
           destruct (header_pass_cases f h data Hy) as [[_ Hr'] | [Hall _]].
           ++ rewrite Hr' in Hp. discriminate.
           ++ apply (not_both h data); [| exact Hall].
              apply Exists_exists. now exists r.
        -- split; [now apply (Hpos records) | discriminate].
      * destruct (convert_unreadable fs path f Ef Hn) as [e He].
        rewrite He in H. discriminate.
    + rewrite (convert_missing fs path Ef) in H. discriminate.
  - intros (f & Ef & Ho & Ht & Hs).
    rewrite (convert_present fs path f Ef Ho), positional_pass_spec, Ht.
    destruct (header_assumed f); [| eexists; reflexivity].
    destruct (yielded (from_start f)) as [|h data] eqn:Hy.
    + rewrite (header_pass_no_line f Hy), Ht. cbn. eexists; reflexivity.
    + destruct (header_pass_cases f h data Hy) as [[He _] | [_ Hp]].
      * elim (Hs eq_refl). now apply (surplus_line_iff f h data Hy).
      * rewrite Hp, Ht. cbn [check bind].
        destruct (keyed_records h data); cbn; eexists; reflexivity.
Qed.

(** The header-keyed pass on a file read to its end, no line longer than
    the header. *)
Lemma header_pass_fits (f : csvfile) (header : list string)
    (data : list row) :
  from_start f = {| yielded := header :: data; raised := None |} ->
  Forall (fun r => length r <= length header) data ->
  header_pass f = Ok (keyed_records header data).
Proof.
  intros Hs Hall.
  destruct (header_pass_cases f header data) as [[He _] | [_ Hp]].
  - now rewrite Hs.
  - elim (not_both header data He Hall).
  - now rewrite Hp, Hs.
Qed.

(** X7.  Under any header, when the sniffer's answer counts as a header and
    no line is longer than the header, the records are those of the lines
    that are not blank, each read by name ([key]; [common name], then
    [common]; [scientific name], then [scientific]; the name itself before
    a header that contains it), the lines without a key and a common name
    left out; and when that leaves nothing, the file is parsed by position,
    its first line included. *)
Theorem header_keyed_by_name
    (fs : filesystem) (path : string) (f : csvfile)
    (header : list string) (data : list row) :
  fs path = Some f -> opens f -> header_assumed f = true ->
  from_start f = {| yielded := header :: data; raised := None |} ->
  Forall (fun r => length r <= length header) data ->
  convert_csv_to_records fs path
  = Ok (if is_nil (keyed_records header data)
        then positional_records (header :: data)
        else keyed_records header data).
Proof.
  intros Ef Ho Hh Hs Hall.
  rewrite (convert_present fs path f Ef Ho), Hh.
  rewrite (header_pass_fits f header data Hs Hall). cbn [bind].
  destruct (keyed_records header data) as [|r rs]; cbn [is_nil negb];
    [| reflexivity].
  now rewrite positional_pass_spec, Hs.
Qed.

Lemma header_keyed_by_name_witness :
  convert_csv_to_records (one_file "in.csv" keyed_file) "in.csv"
  = Ok [Samples.oak].
Proof.
  refine (header_keyed_by_name (one_file "in.csv" keyed_file) "in.csv"
            keyed_file (hd [] keyed_rows) (tl keyed_rows)
            eq_refl (conj eq_refl eq_refl) eq_refl eq_refl _).
  repeat constructor.
Defined.

(** ** Headers the program does not know *)

Lemma prefix_refl (s : string) : String.prefix s s = true.
Proof.
  induction s as [|c s IH]; [reflexivity |]. cbn.
  now destruct (ascii_dec c c).
Qed.

Lemma contains_refl (s : string) : contains s s = true.
Proof. destruct s; cbn [contains]; now rewrite prefix_refl. Qed.

Lemma prefix_weaken (a b s : string) :
  String.prefix (a ++ b) s = true -> String.prefix a s = true.
Proof.
  revert s. induction a as [|c a IH]; intros s; [now destruct s |].
  destruct s as [|d s]; cbn; [discriminate |].
  destruct (ascii_dec c d); [apply IH | discriminate].
Qed.

(** A header that contains a name contains the beginning of the name. *)
Lemma contains_weaken (a b s : string) :
  contains (a ++ b) s = true -> contains a s = true.
Proof.
  induction s as [|c s IH]; cbn [contains]; intros H.
  - apply orb_true_iff in H as [H | H]; [| discriminate].
    now rewrite (prefix_weaken a b _ H).
  - apply orb_true_iff in H as [H | H].
    + now rewrite (prefix_weaken a b _ H).
    + rewrite (IH H). apply orb_true_r.
Qed.

Lemma last_value_in {V} (k : string) (l : list (string * V)) (v : V) :
  last_value k l = Some v -> In (k, v) l.
Proof.
  induction l as [|[k0 v0] l IH]; cbn; [discriminate |].
  destruct (last_value k l) as [v'|].
  - intros [= <-]. right. now apply IH.
  - destruct (String.eqb k0 k) eqn:E; [| discriminate].
    intros [= <-]. apply String.eqb_eq in E as ->. now left.
Qed.

(** A name that no header contains gives the empty string. *)
Lemma field_value_absent (name : string) (cols : columns) :
  (forall kv, In kv cols -> contains name (normalized (fst kv)) = false) ->
  field_value name cols = "".
Proof.
  intros H. unfold field_value.
  destruct (cell_named name cols) as [v|] eqn:Ec.
  - exfalso. unfold cell_named in Ec. apply last_value_in in Ec.
    apply in_map_iff in Ec as (kv & [= Hk _] & Hin).
    specialize (H kv Hin). rewrite Hk, contains_refl in H. discriminate.
  - destruct (first_header_containing name cols) as [k|] eqn:Ef;
      [| reflexivity].
    exfalso. unfold first_header_containing in Ef.
    apply find_some in Ef as [Hin Hk].
    apply in_map_iff in Hin as (kv & <- & Hin).
    specialize (H kv Hin). congruence.
Qed.

Section Keys.
Context {V : Type}.

Lemma keys_dict_set (k k' : string) (v : V) (d : dict V) :
  In k' (map fst (dict_set k v d)) -> k' = k \/ In k' (map fst d).
Proof.
  induction d as [|[k0 v0] d IH]; cbn.
  - intros [<- | []]. now left.
  - destruct (String.eqb k0 k); cbn; [tauto |].
    intros [H | H]; [tauto |]. destruct (IH H); tauto.
Qed.

Lemma keys_dict_update (k' : string) (d : dict V) (l : list (string * V)) :
  In k' (map fst (dict_update d l)) ->
  In k' (map fst d) \/ In k' (map fst l).
Proof.
  revert d. induction l as [|[k0 v0] l IH]; intros d; cbn; [tauto |].
  unfold dict_update in *. cbn. intros H.
  destruct (IH _ H) as [H' | H']; [| tauto].
  destruct (keys_dict_set _ _ _ _ H') as [-> | H'']; tauto.
Qed.
End Keys.

(** The field names of a row of the [DictReader] are names of the
    header. *)
Lemma DictReader_row_names (header : list string) (r : row) (k : string) :
  In k (map fst (fields (DictReader_row header r))) -> In k header.
Proof.
  assert (Hc : forall k, In k (map fst (dict_of_list
                                 (combine header (map Some r)))) ->
                         In k header).
  { intros k0 H. apply keys_dict_update in H as [[] | H].
    apply in_map_iff in H as ([k1 v1] & <- & Hin).
    now apply in_combine_l in Hin. }
  unfold DictReader_row.
  destruct (length header <? length r)%nat; cbn [fields]; [apply Hc |].
  intros H. apply keys_dict_update in H as [H | H]; [now apply Hc |].
  rewrite map_map, map_id in H.
  rewrite <- (firstn_skipn (length r) header). apply in_or_app. now right.
Qed.

Lemma filter_none {A B} (p : B -> bool) (h : A -> B) (l : list A) :
  (forall x, In x l -> p (h x) = false) -> filter p (map h l) = [].
Proof.
  induction l as [|x l IH]; intros H; [reflexivity |]. cbn.
  rewrite (H x (or_introl eq_refl)). apply IH. intros y Hy. apply H.
  now right.
Qed.

(** X8.  When no header contains [key] or [common], in any letter case,
    header-keyed parsing finds no record, and a file parsed with its header
    (no line longer than the header) is parsed by position as a whole: its
    first line comes out as data. *)
Theorem unknown_header_parsed_by_position
    (fs : filesystem) (path : string) (f : csvfile)
    (header : list string) (data : list row) :
  fs path = Some f -> opens f -> header_assumed f = true ->
  from_start f = {| yielded := header :: data; raised := None |} ->
  Forall (fun r => length r <= length header) data ->
  Forall (fun h => contains "key" (normalized h) = false
                   /\ contains "common" (normalized h) = false) header ->
  keyed_records header data = []
  /\ convert_csv_to_records fs path = Ok (positional_records (header :: data)).
Proof.
  intros Ef Ho Hh Hs Hall Hnames.
  assert (Hk : keyed_records header data = []).
  { unfold keyed_records. apply filter_none. intros r _.
    assert (Hcols : forall name, (name = "key" \/ name = "common") ->
              forall kv, In kv (fields (DictReader_row header r)) ->
              contains name (normalized (fst kv)) = false).
    { intros name Hn kv Hin.
      assert (Hh' : In (fst kv) header).
      { apply (DictReader_row_names header r). now apply in_map. }
      rewrite Forall_forall in Hnames.
      destruct (Hnames _ Hh') as [H1 H2]. now destruct Hn as [-> | ->]. }
    unfold has_key_or_common, record_by_name. cbn [key common].
    rewrite (field_value_absent "key") by (apply Hcols; now left).
    rewrite (field_value_absent "common") by (apply Hcols; now right).
    rewrite (field_value_absent "common name"); [reflexivity |].
    intros kv Hin.
    destruct (contains "common name" (normalized (fst kv))) eqn:E;
      [| reflexivity].
    apply (contains_weaken "common" " name") in E.
    rewrite (Hcols "common" (or_intror eq_refl) kv Hin) in E. discriminate. }
  split; [exact Hk |].
  rewrite (convert_present fs path f Ef Ho), Hh.
  rewrite (header_pass_fits f header data Hs Hall), Hk. cbn [bind is_nil negb].
  now rewrite positional_pass_spec, Hs.
Qed.

Lemma unknown_header_parsed_by_position_witness :
  keyed_records (hd [] plants_rows) (tl plants_rows) = []
  /\ convert_csv_to_records (one_file "in.csv" plants_file) "in.csv"
     = Ok [{| key := "Name"; common := "Family"; scientific := "Genus" |};
           {| key := "Maple"; common := "Sapindaceae"; scientific := "Acer" |};
           {| key := "Olive"; common := "Oleaceae"; scientific := "Olea" |}].
Proof.
  refine (unknown_header_parsed_by_position
            (one_file "in.csv" plants_file) "in.csv" plants_file
            (hd [] plants_rows) (tl plants_rows)
            eq_refl (conj eq_refl eq_refl) eq_refl eq_refl _ _).
  - repeat constructor.
  - repeat constructor.
Defined.

(** ** Letter case and blanks of the headers *)

Lemma field_value_same_columns (name : string) (cols cols' : columns) :
  same_columns cols cols' -> field_value name cols = field_value name cols'.
Proof.
  unfold same_columns. intros H.
  assert (Hn : map (fun kv : string * cell => normalized (fst kv)) cols
               = map (fun kv : string * cell => normalized (fst kv)) cols').
  { apply (f_equal (map fst)) in H. now rewrite !map_map in H. }
  unfold field_value, cell_named, first_header_containing.
  now rewrite H, Hn.
Qed.

(** X9.  Record construction sees the headers only trimmed and lower-cased:
    two row mappings with the same cells under headers that differ in
    letter case or in white space around them give the same record. *)
Theorem headers_compared_normalized (cols cols' : columns)
    (hm hm' : string * option (dict string)) :
  same_columns cols cols' ->
  build_records_from_dictrow {| fields := cols; restkey := None |} hm
  = build_records_from_dictrow {| fields := cols'; restkey := None |} hm'.
Proof.
  intros H. rewrite !build_by_name by reflexivity. cbn [fields].
  unfold record_by_name.
  now rewrite !(field_value_same_columns _ cols cols' H).
Qed.

Lemma headers_compared_normalized_witness :
  build_records_from_dictrow
    {| fields := [("Key", Some "Oak"); ("Common Name", Some "Oak Tree")];
       restkey := None |} ("header", None)
  = build_records_from_dictrow
      {| fields := [("  KEY", Some "Oak"); (" common NAME ", Some "Oak Tree")];
         restkey := None |} ("fallback", None).
Proof.
  exact (headers_compared_normalized
           [("Key", Some "Oak"); ("Common Name", Some "Oak Tree")]
           [("  KEY", Some "Oak"); (" common NAME ", Some "Oak Tree")]
           ("header", None) ("fallback", None) eq_refl).
Defined.

(** ** The positional builder on any list of cells *)

Lemma build_records_from_rowlist_any (cols : list string) :
  build_records_from_rowlist cols = first_three cols.
Proof.
  unfold build_records_from_rowlist, first_three.
  now rewrite !str_or_empty.
Qed.

(** X10.  [build_records_from_rowlist] does its own trimming and reads three
    cells: it gives the same record on cells trimmed beforehand or not, it
    ignores every cell after the third, it gives the empty string for each
    cell that is missing, and its fields have no white space around them. *)
Theorem rowlist_trims_and_reads_three (cols : list string) :
  build_records_from_rowlist (map strip cols)
  = build_records_from_rowlist cols
  /\ build_records_from_rowlist (firstn 3 cols)
     = build_records_from_rowlist cols
  /\ build_records_from_rowlist cols
     = {| key := strip (nth 0 cols "");
          common := strip (nth 1 cols "");
          scientific := strip (nth 2 cols "") |}
  /\ build_records_from_rowlist []
     = {| key := ""; common := ""; scientific := "" |}
  /\ trimmed_record (build_records_from_rowlist cols).
Proof.
  split; [| split; [| split; [| split]]].
  - now rewrite build_records_from_rowlist_trimmed,
      build_records_from_rowlist_any.
  - rewrite !build_records_from_rowlist_any.
    now destruct cols as [|a [|b [|c cols]]].
  - apply build_records_from_rowlist_any.
  - reflexivity.
  - rewrite build_records_from_rowlist_any. apply trimmed_first_three.
Qed.

(** ** Control characters in the JSON text *)

Lemma all_chars_app (p : ascii -> bool) (a b : string) :
  all_chars p (a ++ b) = all_chars p a && all_chars p b.
Proof.
  induction a as [|c a IH]; cbn; [reflexivity |].
  now rewrite IH, andb_assoc.
Qed.

Lemma all_chars_weaken (p q : ascii -> bool) (s : string) :
  (forall c, p c = true -> q c = true) ->
  all_chars p s = true -> all_chars q s = true.
Proof.
  intros Hpq. induction s as [|c s IH]; cbn; [reflexivity |].
  intros H. apply andb_true_iff in H as [Hc Hs].
  now rewrite (Hpq c Hc), IH.
Qed.

Lemma escape_char_from_space (c : ascii) :
  all_chars from_space (escape_char c) = true.
Proof. destruct c as [[] [] [] [] [] [] [] []]; reflexivity. Qed.

Lemma escape_from_space (s : string) : all_chars from_space (escape s) = true.
Proof.
  induction s as [|c s IH]; [reflexivity |]. cbn [escape].
  now rewrite all_chars_app, escape_char_from_space, IH.
Qed.

Lemma encode_basestring_from_space (s : string) :
  all_chars from_space (encode_basestring s) = true.
Proof.
  unfold encode_basestring. rewrite !all_chars_app, escape_from_space.
  reflexivity.
Qed.

Lemma render_all_from_space (ts : list token) :
  all_chars from_space (render_all ts) = true.
Proof.
  induction ts as [|t ts IH]; [reflexivity |]. cbn [render_all].
  rewrite all_chars_app, IH, andb_true_r.
  destruct t; try reflexivity. apply encode_basestring_from_space.
Qed.

Lemma from_space_or_newline_of_from_space (c : ascii) :
  from_space c = true -> from_space_or_newline c = true.
Proof. unfold from_space_or_newline. now intros ->. Qed.

Lemma encode_basestring_lines (s : string) :
  all_chars from_space_or_newline (encode_basestring s) = true.
Proof.
  apply (all_chars_weaken from_space); [apply from_space_or_newline_of_from_space |].
  apply encode_basestring_from_space.
Qed.

Lemma pretty_record_lines (r : record) :
  all_chars from_space_or_newline (pretty_record r) = true.
Proof.
  unfold pretty_record, pretty_member.
  rewrite !all_chars_app, !encode_basestring_lines. reflexivity.
Qed.

Lemma pretty_more_lines (rs : list record) :
  all_chars from_space_or_newline (pretty_more rs) = true.
Proof.
  induction rs as [|r rs IH]; [reflexivity |]. cbn [pretty_more].
  rewrite !all_chars_app, pretty_record_lines, IH. reflexivity.
Qed.

Lemma escape_char_from_del (c : ascii) :
  127 <= nat_of_ascii c -> escape_char c = String c "".
Proof.
  intros H. apply escape_char_literal. lia.
Qed.

(** X11.  Whatever the fields hold, the compact JSON text has no character
    below U+0020 in it (no line feed, carriage return or tab: inside a
    field they are written as escapes), so that with a variable name free
    of them the only such character of the compact file is the line feed
    that ends it; in the pretty JSON text the only characters below U+0020
    are the line feeds of the layout.  DEL and the characters above it,
    U+0080 to U+009F included, are written as they are. *)
Theorem json_text_below_space
    (records : list record) (out_path var_name : string) :
  all_chars from_space
            (dumps (json_of_records records) None (Some (",", ":")))
  = true
  /\ all_chars from_space_or_newline
       (dumps (json_of_records records) (Some 2) None) = true
  /\ (all_chars from_space var_name = true ->
      exists line,
        snd (write_js records out_path var_name true) = line ++ newline
        /\ all_chars from_space line = true)
  /\ (forall c, 127 <= nat_of_ascii c -> escape_char c = String c "").
Proof.
  split; [| split; [| split]].
  - rewrite dumps_compact. apply render_all_from_space.
  - rewrite dumps_pretty. destruct records as [|r rs]; [reflexivity |].
    unfold pretty_records.
    rewrite !all_chars_app, pretty_record_lines, pretty_more_lines.
    reflexivity.
  - intros Hv. cbn [write_js snd]. rewrite dumps_compact.
    exists (var_name ++ "=" ++ render_all (tokens_of_records records) ++ ";").
    split.
    + now rewrite !append_assoc.
    + now rewrite !all_chars_app, Hv, render_all_from_space.
  - exact escape_char_from_del.
Qed.

(** ** A run from the file read to the file written *)



(** A write the file system refuses: status 1, the traceback, no file. *)
Example locked_output_run :
  main locked_orchard (default_args "in.csv")
  = {| exit_code := 1;
       stderr := locked_traceback;
       stdout := [];
       written := None |}.
Proof. reflexivity. Qed.

(** [str(Path(s))] on some paths. *)
Example paths :
  Path "./out.js" = "out.js" /\ Path "a//b/./c/" = "a/b/c"
  /\ Path "" = "." /\ Path "/" = "/" /\ Path "//a" = "//a"
  /\ Path "///a" = "/a" /\ Path "a/../b" = "a/../b"
  /\ Path "species-data.js" = "species-data.js".
Proof. repeat split. Qed.
